(** * Substitute search over a product knowledge graph

    A shallow embedding of [graph.py]: the graph builder [createGraph], the
    breadth-first traversal [bfsSearch], the constraint filter
    [checkConstraints], the scorer [scoreCandidate] with its explanation
    [explainRules], and the orchestration [findAlternatives].

    Python values are rendered as follows: [str] is [string], [int] is [Z],
    [float] is the kernel's binary64 [float] (so [<] and [>] are the IEEE
    comparisons Python uses), [bool] is [bool], an insertion-ordered [dict]
    is an association list with in-place update, and a raised exception is
    the [Raise] branch of [result]. *)

From Stdlib Require Import String Ascii List ZArith Bool Lia Permutation Sorted.
From Stdlib Require Import Floats.PrimFloat Numbers.Cyclic.Int63.Uint63.
Import ListNotations.
Open Scope string_scope.
Open Scope list_scope.

Set Implicit Arguments.

(** ** Exceptions *)

Inductive exn : Type :=
| KeyError (key : string)
| ValueError
| NetworkXError.

Inductive result (A : Type) : Type :=
| Ok (a : A)
| Raise (e : exn).

Arguments Ok {A} a.
Arguments Raise {A} e.

Definition bind {A B : Type} (m : result A) (k : A -> result B) : result B :=
  match m with
  | Ok a => k a
  | Raise e => Raise e
  end.

Notation "x <- m ;; k" := (bind m (fun x => k))
  (at level 61, m at next level, right associativity).

(** ** Insertion-ordered dictionaries with string keys *)

Module Dict.
Section Ops.
Variable V : Type.

Definition t := list (string * V).

(** [d.get(k)] *)
Fixpoint get (k : string) (d : t) : option V :=
  match d with
  | [] => None
  | (k', v) :: d' => if String.eqb k k' then Some v else get k d'
  end.

(** [k in d] *)
Definition mem (k : string) (d : t) : bool :=
  match get k d with
  | Some _ => true
  | None => false
  end.

(** [d[k] = v]: an existing key keeps its position, a new key goes last. *)
Fixpoint set (k : string) (v : V) (d : t) : t :=
  match d with
  | [] => [(k, v)]
  | (k', v') :: d' =>
      if String.eqb k k' then (k, v) :: d' else (k', v') :: set k v d'
  end.

(** [list(d)]: the keys in insertion order. *)
Definition keys (d : t) : list string := map fst d.
End Ops.
End Dict.

(** ** Strings *)

(** [x in xs] for a list of strings. *)
Definition str_in (x : string) (xs : list string) : bool :=
  existsb (String.eqb x) xs.

Definition lower_ascii (c : ascii) : ascii :=
  let n := nat_of_ascii c in
  if (65 <=? n)%nat && (n <=? 90)%nat then ascii_of_nat (n + 32) else c.

(** [s.lower()], on the ASCII letters.  The only use compares the result
    with ["true"], and no non-ASCII character lowers to one of its letters. *)
Fixpoint lower (s : string) : string :=
  match s with
  | EmptyString => EmptyString
  | String c s' => String (lower_ascii c) (lower s')
  end.

(** [s.split(sep)] for a one-character separator: never the empty list. *)
Fixpoint split (sep : ascii) (s : string) : list string :=
  match s with
  | EmptyString => [EmptyString]
  | String c s' =>
      if Ascii.eqb c sep then EmptyString :: split sep s'
      else match split sep s' with
           | tok :: toks => String c tok :: toks
           | [] => [String c EmptyString]
           end
  end.

(** [c.isspace()] for an ASCII character. *)
Definition is_space (c : ascii) : bool :=
  let n := nat_of_ascii c in
  ((9 <=? n)%nat && (n <=? 13)%nat) || ((28 <=? n)%nat && (n <=? 32)%nat).

Fixpoint lstrip (s : string) : string :=
  match s with
  | EmptyString => EmptyString
  | String c s' => if is_space c then lstrip s' else s
  end.

Fixpoint rstrip (s : string) : string :=
  match s with
  | EmptyString => EmptyString
  | String c s' =>
      match rstrip s' with
      | EmptyString => if is_space c then EmptyString else String c EmptyString
      | r => String c r
      end
  end.

(** [s.strip()] on ASCII text.  Python also strips the white space that
    Unicode has beyond ASCII, so what is stated of [strip] is stated for
    ASCII text ([ascii_text]). *)
Definition strip (s : string) : string := rstrip (lstrip s).

(** Every character of [s] is an ASCII character. *)
Fixpoint ascii_text (s : string) : bool :=
  match s with
  | EmptyString => true
  | String c s' => (nat_of_ascii c <? 128)%nat && ascii_text s'
  end.

(** ** The networkx graph *)

(** A node's attribute dictionary.  The builder only ever stores the keys
    below; a key that is absent is [None], and reading it raises
    [KeyError]. *)
Record Attrs : Type := mkAttrs {
  a_type : option string;
  a_brand : option string;
  a_category : option string;
  a_price : option float;
  a_stock : option bool;
  a_tags : option (list string)
}.

Definition no_attrs : Attrs := mkAttrs None None None None None None.

Definition upd {A : Type} (old new : option A) : option A :=
  match new with
  | Some x => Some x
  | None => old
  end.

(** [old.update(new)] *)
Definition attrs_update (old new : Attrs) : Attrs :=
  mkAttrs (upd (a_type old) (a_type new))
          (upd (a_brand old) (a_brand new))
          (upd (a_category old) (a_category new))
          (upd (a_price old) (a_price new))
          (upd (a_stock old) (a_stock new))
          (upd (a_tags old) (a_tags new)).

(** A node: its attributes ([graph._node[n]]) and its adjacency dictionary
    ([graph._adj[n]]), which maps a neighbour to the edge's [relation]. *)
Record Node : Type := mkNode {
  n_attrs : Attrs;
  n_adj : Dict.t string
}.

(** [networkx.Graph]: [_node] and [_adj] always have the same keys in the
    same order, so one dictionary holds both. *)
Definition Graph : Type := Dict.t Node.

(** [n in graph.nodes] *)
Definition has_node (n : string) (g : Graph) : bool := Dict.mem n g.

(** [graph.nodes[n]] *)
Definition nodes_get (g : Graph) (n : string) : result Attrs :=
  match Dict.get n g with
  | Some nd => Ok (n_attrs nd)
  | None => Raise (KeyError n)
  end.

(** [graph.neighbors(n)], as the list the iterator yields. *)
Definition neighbors (g : Graph) (n : string) : result (list string) :=
  match Dict.get n g with
  | Some nd => Ok (Dict.keys (n_adj nd))
  | None => Raise NetworkXError
  end.

(** [graph.add_node(n, **attr)] *)
Definition add_node (n : string) (attr : Attrs) (g : Graph) : Graph :=
  match Dict.get n g with
  | None => Dict.set n (mkNode attr []) g
  | Some nd => Dict.set n (mkNode (attrs_update (n_attrs nd) attr) (n_adj nd)) g
  end.

Definition ensure_node (n : string) (g : Graph) : Graph :=
  if has_node n g then g else Dict.set n (mkNode no_attrs []) g.

(** [graph._adj[u][v] = {"relation": rel}] *)
Definition set_adj (u v rel : string) (g : Graph) : Graph :=
  match Dict.get u g with
  | Some nd => Dict.set u (mkNode (n_attrs nd) (Dict.set v rel (n_adj nd))) g
  | None => g
  end.

(** [graph.add_edge(u, v, relation=rel)] *)
Definition add_edge (u v rel : string) (g : Graph) : Graph :=
  let g := ensure_node u g in
  let g := ensure_node v g in
  let g := set_adj u v rel g in
  set_adj v u rel g.

(** [d[key]] on an attribute dictionary. *)
Definition attr {A : Type} (key : string) (field : option A) : result A :=
  match field with
  | Some x => Ok x
  | None => Raise (KeyError key)
  end.

(** ** createGraph *)

(** One row of [csv.DictReader] for a file whose header has the six columns,
    read from a complete line, so every value is a string.  A line with
    fewer fields than the header, for which the reader yields [None] and
    lines 15-17 raise [TypeError] or [AttributeError], is not a [Row]:
    what is said of rows is said of complete lines. *)
Record Row : Type := mkRow {
  r_id : string;
  r_category : string;
  r_brand : string;
  r_price : string;
  r_stock : string;
  r_tags : string
}.

Definition product_attrs (brand category : string) (price : float)
    (stock : bool) (tags : list string) : Attrs :=
  mkAttrs (Some "product") (Some brand) (Some category) (Some price)
          (Some stock) (Some tags).

Definition type_attrs (ty : string) : Attrs :=
  mkAttrs (Some ty) None None None None None.

(** The body of [for tag in tags]. *)
Definition add_tag (product_id : string) (g : Graph) (tag : string) : Graph :=
  let g := if has_node tag g then g else add_node tag (type_attrs "tag") g in
  add_edge product_id tag "HAS TAG" g.

(** Lines 20-40: the graph updates for one parsed record. *)
Definition add_product (g : Graph) (product_id category brand : string)
    (price : float) (stock : bool) (tags : list string) : Graph :=
  let g := add_node product_id (product_attrs brand category price stock tags) g in
  let g := if has_node category g then g
           else add_node category (type_attrs "category") g in
  let g := add_edge product_id category "IS A" g in
  fold_left (add_tag product_id) tags g.

Section Builder.
(** Python's [float(s)] on a string: [None] when it raises [ValueError]. *)
Variable py_float : string -> option float.

(** The body of [for row in reader]. *)
Definition add_row (g : Graph) (row : Row) : result Graph :=
  let product_id := r_id row in
  let category := r_category row in
  let brand := r_brand row in
  price <- match py_float (r_price row) with
           | Some p => Ok p
           | None => Raise ValueError
           end ;;
  let stock := String.eqb (lower (r_stock row)) "true" in
  let tags := split ";" (r_tags row) in
  Ok (add_product g product_id category brand price stock tags).

Fixpoint add_rows (g : Graph) (rows : list Row) : result Graph :=
  match rows with
  | [] => Ok g
  | row :: rows' => g' <- add_row g row ;; add_rows g' rows'
  end.

(** [createGraph], on the rows the reader yields. *)
Definition createGraph (rows : list Row) : result Graph := add_rows [] rows.
End Builder.

(** ** bfsSearch *)

(** [nodeData.get("type") == "product"] *)
Definition is_product (nodeData : Attrs) : bool :=
  match a_type nodeData with
  | Some ty => String.eqb ty "product"
  | None => false
  end.

(** The [while queue:] loop.  [visited] is the set (only membership is
    read), [queue] the deque with its left end first.  Each unit of fuel
    pays for one iteration; [None] means the fuel ran out. *)
Fixpoint bfs_loop (fuel : nat) (graph : Graph) (startProduct : string)
    (visited queue productList : list string) : option (result (list string)) :=
  match fuel with
  | O => None
  | S fuel' =>
      match queue with
      | [] => Some (Ok productList)
      | node :: queue =>
          if str_in node visited then
            bfs_loop fuel' graph startProduct visited queue productList
          else
            let visited := node :: visited in
            match nodes_get graph node with
            | Raise e => Some (Raise e)
            | Ok nodeData =>
                let productList :=
                  if negb (String.eqb node startProduct) && is_product nodeData
                  then productList ++ [node] else productList in
                match neighbors graph node with
                | Raise e => Some (Raise e)
                | Ok ns =>
                    let queue :=
                      queue ++ filter (fun neighbor => negb (str_in neighbor visited)) ns in
                    bfs_loop fuel' graph startProduct visited queue productList
                end
            end
      end
  end.

(** One more than the number of nodes plus adjacency entries. *)
Fixpoint graph_size (g : Graph) : nat :=
  match g with
  | [] => 0
  | (_, nd) :: g' => S (length (n_adj nd)) + graph_size g'
  end.

Definition bfs_fuel (g : Graph) : nat := S (S (graph_size g)).

Definition bfsSearch (graph : Graph) (startProduct : string)
    : option (result (list string)) :=
  bfs_loop (bfs_fuel graph) graph startProduct [] [startProduct] [].

(** ** checkConstraints *)

(** [for tag in requiredTags: if tag not in data["tags"]: return False];
    [Ok true] when the loop runs to its end. *)
Fixpoint required_tags_loop (data : Attrs) (requiredTags : list string)
    : result bool :=
  match requiredTags with
  | [] => Ok true
  | tag :: rest =>
      tags <- attr "tags" (a_tags data) ;;
      if negb (str_in tag tags) then Ok false
      else required_tags_loop data rest
  end.

Definition checkConstraints (graph : Graph) (productId : string)
    (maxPrice : float) (requiredTags : list string)
    (preferredBrand : option string) : result bool :=
  data <- nodes_get graph productId ;;
  stock <- attr "stock" (a_stock data) ;;
  if negb stock then Ok false else
  price <- attr "price" (a_price data) ;;
  if PrimFloat.ltb maxPrice price then Ok false else
  passed <- required_tags_loop data requiredTags ;;
  if negb passed then Ok false else
  match preferredBrand with
  | None => Ok true
  | Some preferred =>
      if String.eqb preferred "" then Ok true else
      brand <- attr "brand" (a_brand data) ;;
      if negb (String.eqb brand preferred) then Ok false else Ok true
  end.

(** ** scoreCandidate *)

(** [for neighbor in ...: if neighbor == candidateCategory: score += 1; break] *)
Fixpoint similar_loop (candidateCategory : string) (ns : list string)
    (score : Z) : Z :=
  match ns with
  | [] => score
  | neighbor :: ns' =>
      if String.eqb neighbor candidateCategory then (score + 1)%Z
      else similar_loop candidateCategory ns' score
  end.

(** Lines 125-132: the category dimension. *)
Definition category_score (graph : Graph)
    (requestedCategory candidateCategory : string) (score : Z) : result Z :=
  if String.eqb requestedCategory candidateCategory then Ok (score + 3)%Z
  else
    ns <- neighbors graph requestedCategory ;;
    Ok (similar_loop candidateCategory ns score).

Definition scoreCandidate (graph : Graph)
    (requestedProduct candidateProduct : string) : result Z :=
  requestedData <- nodes_get graph requestedProduct ;;
  candidateData <- nodes_get graph candidateProduct ;;
  let score := 0%Z in
  requestedCategory <- attr "category" (a_category requestedData) ;;
  candidateCategory <- attr "category" (a_category candidateData) ;;
  score <- category_score graph requestedCategory candidateCategory score ;;
  requestedBrand <- attr "brand" (a_brand requestedData) ;;
  candidateBrand <- attr "brand" (a_brand candidateData) ;;
  let score :=
    if String.eqb requestedBrand candidateBrand then (score + 1)%Z else score in
  candidatePrice <- attr "price" (a_price candidateData) ;;
  requestedPrice <- attr "price" (a_price requestedData) ;;
  let score :=
    if PrimFloat.ltb candidatePrice requestedPrice then (score + 1)%Z else score in
  Ok score.

(** ** explainRules *)

(** [all(tag in candidateData["tags"] for tag in requiredTags)] *)
Fixpoint all_tags_in (candidateData : Attrs) (requiredTags : list string)
    : result bool :=
  match requiredTags with
  | [] => Ok true
  | tag :: rest =>
      tags <- attr "tags" (a_tags candidateData) ;;
      if str_in tag tags then all_tags_in candidateData rest else Ok false
  end.

Definition explainRules (graph : Graph)
    (requestedProduct candidateProduct : string) (requiredTags : list string)
    : result (list string) :=
  requestedData <- nodes_get graph requestedProduct ;;
  candidateData <- nodes_get graph candidateProduct ;;
  let rules := [] in
  requestedCategory <- attr "category" (a_category requestedData) ;;
  candidateCategory <- attr "category" (a_category candidateData) ;;
  let rules :=
    if String.eqb requestedCategory candidateCategory
    then rules ++ ["Same Category"] else rules ++ ["Similar Category"] in
  matched <- all_tags_in candidateData requiredTags ;;
  let rules := if matched then rules ++ ["All tags matched"] else rules in
  candidatePrice <- attr "price" (a_price candidateData) ;;
  requestedPrice <- attr "price" (a_price requestedData) ;;
  let rules :=
    if PrimFloat.ltb candidatePrice requestedPrice
    then rules ++ ["Cheaper than original"] else rules in
  candidateBrand <- attr "brand" (a_brand candidateData) ;;
  requestedBrand <- attr "brand" (a_brand requestedData) ;;
  let rules :=
    if String.eqb candidateBrand requestedBrand
    then rules ++ ["Same brand"] else rules ++ ["Different brand"] in
  Ok rules.

(** ** findAlternatives *)

(** The tuples the function returns: [(productId, score, rules)] for a
    ranked alternative, and the four-component tuple of line 178. *)
Inductive Item : Type :=
| Tuple3 (productId : string) (score : Z) (rules : list string)
| Tuple4 (marker productId : string) (score : Z) (rules : list string).

(** [len(item)] *)
Definition arity (it : Item) : nat :=
  match it with
  | Tuple3 _ _ _ => 3
  | Tuple4 _ _ _ _ => 4
  end.

(** An entry of [validList]. *)
Definition Entry : Type := (string * Z * list string)%type.

Definition entry_id (x : Entry) : string := fst (fst x).
(** [lambda x: x[1]] *)
Definition entry_score (x : Entry) : Z := snd (fst x).
Definition entry_rules (x : Entry) : list string := snd x.

Definition to_item (x : Entry) : Item :=
  Tuple3 (entry_id x) (entry_score x) (entry_rules x).

(** The [for productId in candidateProducts] loop, appending to [validList]. *)
Fixpoint collect_valid (graph : Graph) (requestedProduct : string)
    (maxPrice : float) (requiredTags : list string)
    (preferredBrand : option string) (candidateProducts : list string)
    (validList : list Entry) : result (list Entry) :=
  match candidateProducts with
  | [] => Ok validList
  | productId :: rest =>
      keep <- checkConstraints graph productId maxPrice requiredTags preferredBrand ;;
      if keep then
        score <- scoreCandidate graph requestedProduct productId ;;
        rules <- explainRules graph requestedProduct productId requiredTags ;;
        collect_valid graph requestedProduct maxPrice requiredTags preferredBrand
          rest (validList ++ [(productId, score, rules)])
      else
        collect_valid graph requestedProduct maxPrice requiredTags preferredBrand
          rest validList
  end.

(** [validList.sort(key=lambda x: x[1], reverse=True)].  Python's sort is
    stable, also with [reverse=True]; the result of a stable sort does not
    depend on the algorithm (see [stable_sort_unique]), and insertion from
    the right computes it. *)
Fixpoint insert_desc (x : Entry) (l : list Entry) : list Entry :=
  match l with
  | [] => [x]
  | y :: l' =>
      if (entry_score y <=? entry_score x)%Z then x :: l
      else y :: insert_desc x l'
  end.

Definition sort_desc (l : list Entry) : list Entry :=
  fold_right insert_desc [] l.

Definition findAlternatives (graph : Graph) (requestedProduct : string)
    (maxPrice : float) (requiredTags : list string)
    (preferredBrand : option string) : option (result (list Item)) :=
  if negb (has_node requestedProduct graph) then Some (Ok []) else
  match (reqData <- nodes_get graph requestedProduct ;;
         attr "stock" (a_stock reqData)) with
  | Raise e => Some (Raise e)
  | Ok true =>
      Some (Ok [Tuple4 "EXACT_MATCH" requestedProduct 999 ["product_in_stock"]])
  | Ok false =>
      match bfsSearch graph requestedProduct with
      | None => None
      | Some (Raise e) => Some (Raise e)
      | Some (Ok candidateProducts) =>
          Some (validList <- collect_valid graph requestedProduct maxPrice
                               requiredTags preferredBrand candidateProducts [] ;;
                Ok (map to_item (firstn 3 (sort_desc validList))))
      end
  end.

(** ** The tag parser of the search form *)

Definition nonempty (s : string) : bool :=
  match s with
  | EmptyString => false
  | String _ _ => true
  end.

(** [[t.strip() for t in text.split(";") if t.strip()]] *)
Definition parse_required_tags (text : string) : list string :=
  map strip (filter (fun t => nonempty (strip t)) (split ";" text)).

(** ** A sample of Python's [float] *)

Fixpoint digits_value (s : string) (acc : Z) : option Z :=
  match s with
  | EmptyString => Some acc
  | String c s' =>
      let n := nat_of_ascii c in
      if (48 <=? n)%nat && (n <=? 57)%nat
      then digits_value s' (10 * acc + Z.of_nat (n - 48))%Z
      else None
  end.

(** [float(s)] on a plain decimal integer literal below [2^53], where the
    conversion is exact.  Other strings are outside this sample (it answers
    [None]); it serves to run [createGraph] on concrete rows. *)
Definition float_of_digits (s : string) : option float :=
  match s with
  | EmptyString => None
  | _ =>
      match digits_value s 0 with
      | Some z =>
          if (z <? 2 ^ 53)%Z then Some (PrimFloat.of_uint63 (Uint63.of_Z z))
          else None
      | None => None
      end
  end.

(** ** The scenario of the three shoes *)

Definition rowA : Row := mkRow "A" "shoes" "X" "50" "false" "running".
Definition rowB : Row := mkRow "B" "shoes" "X" "40" "true" "running;light".
Definition rowC : Row := mkRow "C" "shoes" "Y" "60" "true" "running".
Definition shoeRows : list Row := [rowA; rowB; rowC].

Definition shoeGraph : Graph :=
  match createGraph float_of_digits shoeRows with
  | Ok g => g
  | Raise _ => []
  end.

(** ** Well-formed graphs *)

(** Every neighbour recorded in an adjacency dictionary is a node. *)
Definition adj_closed (g : Graph) : bool :=
  forallb (fun kv => forallb (fun n => has_node n g) (Dict.keys (n_adj (snd kv)))) g.

(** A product node carries all five product attributes and its category is
    a node. *)
Definition full_product (g : Graph) (a : Attrs) : bool :=
  match a_brand a, a_category a, a_price a, a_stock a, a_tags a with
  | Some _, Some c, Some _, Some _, Some _ => has_node c g
  | _, _, _, _, _ => false
  end.

Definition products_ok (g : Graph) : bool :=
  forallb (fun kv => implb (is_product (n_attrs (snd kv)))
                           (full_product g (n_attrs (snd kv)))) g.

Definition graph_ok (g : Graph) : bool := adj_closed g && products_ok g.

(** The nodes still to visit, each counted with its adjacency entries. *)
Fixpoint bfs_weight (g : Graph) (visited : list string) : nat :=
  match g with
  | [] => 0
  | (k, nd) :: g' =>
      (if str_in k visited then 0 else S (length (n_adj nd)))
      + bfs_weight g' visited
  end.

(** ** Edges of a node, by relation *)

Definition is_a_edges (nd : Node) : Dict.t string :=
  filter (fun kv => String.eqb (snd kv) "IS A") (n_adj nd).

Definition has_tag_edges (nd : Node) : Dict.t string :=
  filter (fun kv => String.eqb (snd kv) "HAS TAG") (n_adj nd).

(** Some product node is adjacent to both [c1] and [c2]. *)
Definition linked_through_product (g : Graph) (c1 c2 : string) : bool :=
  existsb (fun kv => is_product (n_attrs (snd kv))
                     && str_in c1 (Dict.keys (n_adj (snd kv)))
                     && str_in c2 (Dict.keys (n_adj (snd kv)))) g.

(** ** Further sample catalogues *)

(** The id P occurs on two lines, with two categories. *)
Definition twinRows : list Row :=
  [mkRow "P" "boots" "Y" "60" "true" "leather";
   mkRow "P" "sandals" "Y" "60" "true" "leather";
   mkRow "Q" "boots" "X" "50" "false" "leather"].

Definition twinGraph : Graph :=
  match createGraph float_of_digits twinRows with
  | Ok g => g
  | Raise _ => []
  end.

(** A tags field with a blank after one separator and a trailing separator. *)
Definition rawTagRows : list Row :=
  [mkRow "B" "shoes" "X" "40" "true" "running; light;"].

Definition rawTagGraph : Graph :=
  match createGraph float_of_digits rawTagRows with
  | Ok g => g
  | Raise _ => []
  end.

(** A stock field that is neither "true" nor "false". *)
Definition oddStockRows : list Row :=
  [mkRow "A" "shoes" "X" "50" "maybe" "running"].

(** ** Catalogues without name clashes *)

(** [row["tags"].split(";")] *)
Definition row_tags (r : Row) : list string := split ";" (r_tags r).

Fixpoint no_repeat (l : list string) : bool :=
  match l with
  | [] => true
  | x :: l' => negb (str_in x l') && no_repeat l'
  end.

(** No id occurs on two rows. *)
Definition unique_ids (rows : list Row) : bool := no_repeat (map r_id rows).

(** No id is used as a category or as a tag. *)
Definition ids_apart (rows : list Row) : bool :=
  forallb (fun r =>
    forallb (fun r' => negb (String.eqb (r_id r) (r_category r'))
                       && negb (str_in (r_id r) (row_tags r'))) rows) rows.

(** No row names its own category among its tags. *)
Definition category_not_tag (rows : list Row) : bool :=
  forallb (fun r => negb (str_in (r_category r) (row_tags r))) rows.

Definition catalogue_ok (rows : list Row) : bool :=
  unique_ids rows && ids_apart rows && category_not_tag rows.

(** The strings of a list in order of first occurrence. *)
Definition add_distinct (ts : list string) (t : string) : list string :=
  if str_in t ts then ts else ts ++ [t].

Definition distinct (tags : list string) : list string :=
  fold_left add_distinct tags [].

Definition has_tag_edge (t : string) : string * string := (t, "HAS TAG").

(** Node [n], if present, is not a product node. *)
Definition not_product (g : Graph) (n : string) : Prop :=
  forall nd, Dict.get n g = Some nd -> is_product (n_attrs nd) = false.

(** ** Well-formedness, node by node *)

(** The neighbours of [nd] are known to [known], and if [nd] is a product
    it has the product attributes and a known category. *)
Definition node_wf (known : string -> Prop) (nd : Node) : Prop :=
  (forall n, In n (Dict.keys (n_adj nd)) -> known n) /\
  (is_product (n_attrs nd) = true ->
   exists b c p s t, n_attrs nd = product_attrs b c p s t /\ known c).

(** Every node is well formed, the nodes in [pending] being counted as
    present: between [add_node(product_id)] and the creation of its category
    node, the category is pending. *)
Definition graph_wf (pending : string -> Prop) (g : Graph) : Prop :=
  forall k nd, In (k, nd) g ->
    node_wf (fun n => pending n \/ has_node n g = true) nd.

Definition nothing : string -> Prop := fun _ => False.

(** The id "boots" is also the category of Q. *)
Definition clashRows : list Row :=
  [mkRow "boots" "shoes" "Y" "60" "true" "leather";
   mkRow "Q" "boots" "X" "50" "false" "leather"].

Definition clashGraph : Graph :=
  match createGraph float_of_digits clashRows with
  | Ok g => g
  | Raise _ => []
  end.

(** The price of the second record is a word. *)
Definition badPriceRows : list Row :=
  [rowA; mkRow "D" "shoes" "X" "cheap" "true" "running"].

(** Every edge has an end among [ids]. *)
Definition edges_touch (ids : string -> Prop) (g : Graph) : Prop :=
  forall k nd, In (k, nd) g ->
    forall n, In n (Dict.keys (n_adj nd)) -> ids k \/ ids n.

(** ** Notions used in the statements *)

(** What the loop keeps true: the output has no repetition, holds only
    visited product nodes, and never the start. *)
Definition bfs_inv (g : Graph) (s : string) (visited pl : list string) : Prop :=
  NoDup pl /\
  Forall (fun p => In p visited /\ p <> s /\
                   exists a, nodes_get g p = Ok a /\ is_product a = true) pl.

(** [preferredBrand is not None and preferredBrand != "" and brand != preferredBrand] *)
Definition brand_rejects (brand : string) (preferredBrand : option string) : bool :=
  match preferredBrand with
  | None => false
  | Some preferred =>
      negb (String.eqb preferred "") && negb (String.eqb brand preferred)
  end.

Definition category_label (rc cc : string) : string :=
  if String.eqb rc cc then "Same Category" else "Similar Category".

Definition brand_label (cb rb : string) : string :=
  if String.eqb cb rb then "Same brand" else "Different brand".

(** [checkConstraints] answered [True]. *)
Definition passes (g : Graph) (maxPrice : float) (requiredTags : list string)
    (preferredBrand : option string) (productId : string) : bool :=
  match checkConstraints g productId maxPrice requiredTags preferredBrand with
  | Ok true => true
  | _ => false
  end.

(** [x] may stand before [y] in a list sorted by descending score. *)
Definition desc (x y : Entry) : Prop := (entry_score y <= entry_score x)%Z.

Definition same_score (s : Z) (x : Entry) : bool := (entry_score x =? s)%Z.

Definition numeric (py_float : string -> option float) (r : Row) : Prop :=
  py_float (r_price r) <> None.

(** ** Reachability *)

(** [m] can be reached from [s] along adjacency entries. *)
Inductive reachable (g : Graph) (s : string) : string -> Prop :=
| reach_start : reachable g s s
| reach_step (n m : string) (nd : Node) :
    reachable g s n -> Dict.get n g = Some nd ->
    In m (Dict.keys (n_adj nd)) -> reachable g s m.

(** [n] is a node whose type is "product". *)
Definition product_at (g : Graph) (n : string) : bool :=
  match Dict.get n g with
  | Some nd => is_product (n_attrs nd)
  | None => false
  end.

(** What the loop of [bfsSearch] keeps true about reachability. *)
Definition bfs_reach_inv (g : Graph) (s : string)
    (visited queue pl : list string) : Prop :=
  (forall x, In x visited \/ In x queue -> reachable g s x) /\
  (forall n nd m, In n visited -> Dict.get n g = Some nd ->
                  In m (Dict.keys (n_adj nd)) -> In m visited \/ In m queue) /\
  (forall p, In p pl <-> In p visited /\ p <> s /\ product_at g p = true) /\
  (In s visited \/ In s queue).

(** The product id of a returned tuple. *)
Definition item_id (it : Item) : string :=
  match it with
  | Tuple3 productId _ _ => productId
  | Tuple4 _ productId _ _ => productId
  end.

(** ** Notions used for the builder *)

(** The attribute dictionary of node [n], if [n] is a node. *)
Definition attrs_at (g : Graph) (n : string) : option Attrs :=
  option_map n_attrs (Dict.get n g).

(** [v] is a key of the adjacency dictionary of [u]. *)
Definition adjacent (g : Graph) (u v : string) : Prop :=
  exists nd, Dict.get u g = Some nd /\ In v (Dict.keys (n_adj nd)).

(** The attributes [createGraph] stores for a record whose price reads [p]. *)
Definition row_attrs (r : Row) (p : float) : Attrs :=
  product_attrs (r_brand r) (r_category r) p
    (String.eqb (lower (r_stock r)) "true") (row_tags r).

(** A node is a product with its five attributes, or a bare category or
    tag node. *)
Definition kind_ok (a : Attrs) : Prop :=
  (exists b c p s t, a = product_attrs b c p s t) \/
  a = type_attrs "category" \/ a = type_attrs "tag".

Definition graph_kinds (g : Graph) : Prop :=
  forall k nd, In (k, nd) g -> kind_ok (n_attrs nd).

(** ** visualizeGraph: the three node lists *)

(** [[n for n, d in graph.nodes(data=True) if d["type"] == ty]]
    (lines 50-52): a node without the key "type" raises [KeyError]. *)
Fixpoint nodes_of_type (ty : string) (g : Graph) : result (list string) :=
  match g with
  | [] => Ok []
  | (n, nd) :: g' =>
      t <- attr "type" (a_type (n_attrs nd)) ;;
      rest <- nodes_of_type ty g' ;;
      Ok (if String.eqb t ty then n :: rest else rest)
  end.

(** [c in s] for a character. *)
Fixpoint has_char (c : ascii) (s : string) : bool :=
  match s with
  | EmptyString => false
  | String c' s' => Ascii.eqb c' c || has_char c s'
  end.

(** A token the search form's parser leaves as it is. *)
Definition clean_token (t : string) : Prop := strip t = t /\ t <> "".

(** [v] is a neighbour of [u], the edge carrying the relation [rel]. *)
Definition edge (g : Graph) (u v rel : string) : Prop :=
  exists nd, Dict.get u g = Some nd /\ Dict.get v (n_adj nd) = Some rel.

Definition undirected (g : Graph) : Prop :=
  forall u v rel, edge g u v rel -> edge g v u rel.

(** * Properties *)

(** ** Dictionaries *)

Lemma str_in_In (x : string) (xs : list string) :
  str_in x xs = true <-> In x xs.
Proof.
  unfold str_in. rewrite existsb_exists. split.
  - intros [y [Hy He]]. apply String.eqb_eq in He. now subst.
  - intros H. exists x. split; [exact H | apply String.eqb_refl].
Qed.

Lemma str_in_not_In (x : string) (xs : list string) :
  str_in x xs = false <-> ~ In x xs.
Proof.
  rewrite <- str_in_In. destruct (str_in x xs); split; congruence.
Qed.

Lemma dict_get_set_same (V : Type) (k : string) (v : V) (d : Dict.t V) :
  Dict.get k (Dict.set k v d) = Some v.
Proof.
  induction d as [|[k' v'] d IH]; simpl.
  - now rewrite String.eqb_refl.
  - destruct (String.eqb k k') eqn:E; simpl.
    + now rewrite String.eqb_refl.
    + now rewrite E.
Qed.

Lemma dict_get_set_other (V : Type) (k k0 : string) (v : V) (d : Dict.t V) :
  k0 <> k -> Dict.get k0 (Dict.set k v d) = Dict.get k0 d.
Proof.
  intros Hne. induction d as [|[k' v'] d IH]; simpl.
  - apply String.eqb_neq in Hne. now rewrite Hne.
  - destruct (String.eqb k k') eqn:E; simpl.
    + apply String.eqb_eq in E. subst k'.
      apply String.eqb_neq in Hne. now rewrite Hne.
    + now rewrite IH.
Qed.

Lemma dict_get_In (V : Type) (k : string) (v : V) (d : Dict.t V) :
  Dict.get k d = Some v -> In (k, v) d.
Proof.
  induction d as [|[k' v'] d IH]; simpl; [discriminate|].
  destruct (String.eqb k k') eqn:E.
  - apply String.eqb_eq in E. intros [= ->]. subst. now left.
  - intros H. right. now apply IH.
Qed.

Lemma dict_mem_keys (V : Type) (k : string) (d : Dict.t V) :
  Dict.mem k d = true <-> In k (Dict.keys d).
Proof.
  unfold Dict.mem, Dict.keys. induction d as [|[k' v'] d IH]; simpl.
  - split; [discriminate | tauto].
  - destruct (String.eqb k k') eqn:E.
    + apply String.eqb_eq in E. subst. split; auto.
    + rewrite IH. apply String.eqb_neq in E. split; [auto|].
      intros [H|H]; [congruence | exact H].
Qed.

(** ** How the graph operations change a node *)

Lemma has_node_set_same (k : string) (v : Node) (g : Graph) :
  has_node k (Dict.set k v g) = true.
Proof. unfold has_node, Dict.mem. now rewrite dict_get_set_same. Qed.

Lemma has_node_set_mono (n k : string) (v : Node) (g : Graph) :
  has_node n g = true -> has_node n (Dict.set k v g) = true.
Proof.
  destruct (string_dec n k) as [->|Hne]; [intros _; apply has_node_set_same|].
  unfold has_node, Dict.mem. now rewrite dict_get_set_other.
Qed.

Lemma set_adj_get_other (n u v rel : string) (g : Graph) :
  n <> u -> Dict.get n (set_adj u v rel g) = Dict.get n g.
Proof.
  intros Hne. unfold set_adj. destruct (Dict.get u g); [|reflexivity].
  now apply dict_get_set_other.
Qed.

Lemma set_adj_get_same (u v rel : string) (g : Graph) (nd : Node) :
  Dict.get u g = Some nd ->
  Dict.get u (set_adj u v rel g)
  = Some (mkNode (n_attrs nd) (Dict.set v rel (n_adj nd))).
Proof.
  intros H. unfold set_adj. rewrite H. apply dict_get_set_same.
Qed.

Lemma set_adj_has (n u v rel : string) (g : Graph) :
  has_node n (set_adj u v rel g) = has_node n g.
Proof.
  unfold has_node, Dict.mem. destruct (string_dec n u) as [->|Hne].
  - destruct (Dict.get u g) as [nd|] eqn:E.
    + now rewrite (@set_adj_get_same u v rel g nd E).
    + unfold set_adj. now rewrite E, E.
  - now rewrite set_adj_get_other.
Qed.

Lemma ensure_node_present (m : string) (g : Graph) :
  has_node m g = true -> ensure_node m g = g.
Proof. intros H. unfold ensure_node. now rewrite H. Qed.

Lemma ensure_node_has (m : string) (g : Graph) :
  has_node m (ensure_node m g) = true.
Proof.
  unfold ensure_node. destruct (has_node m g) eqn:E; [exact E|].
  apply has_node_set_same.
Qed.

Lemma ensure_node_mono (n m : string) (g : Graph) :
  has_node n g = true -> has_node n (ensure_node m g) = true.
Proof.
  intros H. unfold ensure_node. destruct (has_node m g); [exact H|].
  now apply has_node_set_mono.
Qed.

Lemma add_edge_present (u v rel : string) (g : Graph) :
  has_node u g = true -> has_node v g = true ->
  add_edge u v rel g = set_adj v u rel (set_adj u v rel g).
Proof.
  intros Hu Hv. unfold add_edge. now rewrite (ensure_node_present u g Hu),
    (ensure_node_present v g Hv).
Qed.

Lemma add_edge_mono (n u v rel : string) (g : Graph) :
  has_node n g = true -> has_node n (add_edge u v rel g) = true.
Proof.
  intros H. unfold add_edge. rewrite !set_adj_has.
  now apply ensure_node_mono, ensure_node_mono.
Qed.

Lemma add_edge_has_ends (u v rel : string) (g : Graph) :
  has_node u (add_edge u v rel g) = true /\
  has_node v (add_edge u v rel g) = true.
Proof.
  unfold add_edge. rewrite !set_adj_has. split.
  - apply ensure_node_mono, ensure_node_has.
  - apply ensure_node_has.
Qed.

Lemma add_node_get_other (n m : string) (a : Attrs) (g : Graph) :
  n <> m -> Dict.get n (add_node m a g) = Dict.get n g.
Proof.
  intros Hne. unfold add_node.
  destruct (Dict.get m g); now apply dict_get_set_other.
Qed.

Lemma add_node_has (m : string) (a : Attrs) (g : Graph) :
  has_node m (add_node m a g) = true.
Proof.
  unfold add_node. destruct (Dict.get m g); apply has_node_set_same.
Qed.

Lemma add_node_mono (n m : string) (a : Attrs) (g : Graph) :
  has_node n g = true -> has_node n (add_node m a g) = true.
Proof.
  intros H. unfold add_node. destruct (Dict.get m g); now apply has_node_set_mono.
Qed.

(** [if m not in graph.nodes: graph.add_node(m, ...)] *)
Lemma absent_add_get (n m : string) (a : Attrs) (g : Graph) :
  n <> m \/ has_node n g = true ->
  Dict.get n (if has_node m g then g else add_node m a g) = Dict.get n g.
Proof.
  intros H. destruct (has_node m g) eqn:E; [reflexivity|].
  apply add_node_get_other. destruct H as [H|H]; [exact H|]. congruence.
Qed.

Lemma absent_add_has (m : string) (a : Attrs) (g : Graph) :
  has_node m (if has_node m g then g else add_node m a g) = true.
Proof.
  destruct (has_node m g) eqn:E; [exact E | apply add_node_has].
Qed.

Lemma absent_add_mono (n m : string) (a : Attrs) (g : Graph) :
  has_node n g = true ->
  has_node n (if has_node m g then g else add_node m a g) = true.
Proof.
  intros H. destruct (has_node m g); [exact H | now apply add_node_mono].
Qed.

Lemma has_node_get (n : string) (g : Graph) (nd : Node) :
  Dict.get n g = Some nd -> has_node n g = true.
Proof. unfold has_node, Dict.mem. now intros ->. Qed.

Lemma add_edge_get_self (u v rel : string) (g : Graph) (nd : Node) :
  u <> v -> Dict.get u g = Some nd -> has_node v g = true ->
  Dict.get u (add_edge u v rel g)
  = Some (mkNode (n_attrs nd) (Dict.set v rel (n_adj nd))).
Proof.
  intros Hne Hu Hv. rewrite add_edge_present by eauto using has_node_get.
  rewrite set_adj_get_other by exact Hne. now apply set_adj_get_same.
Qed.

Lemma add_edge_get_other (n u v rel : string) (g : Graph) :
  n <> u -> n <> v -> Dict.get n (add_edge u v rel g) = Dict.get n (ensure_node v (ensure_node u g)).
Proof.
  intros Hu Hv. unfold add_edge. now rewrite !set_adj_get_other.
Qed.

Lemma add_edge_get_frame (n u v rel : string) (g : Graph) :
  n <> u -> n <> v -> has_node u g = true -> has_node v g = true ->
  Dict.get n (add_edge u v rel g) = Dict.get n g.
Proof.
  intros Hu Hv Pu Pv. rewrite add_edge_get_other by assumption.
  now rewrite (ensure_node_present u g Pu), (ensure_node_present v g Pv).
Qed.

(** *** The loop over the tags *)

Lemma add_tag_mono (n q t : string) (g : Graph) :
  has_node n g = true -> has_node n (add_tag q g t) = true.
Proof.
  intros H. unfold add_tag. now apply add_edge_mono, absent_add_mono.
Qed.

Lemma add_tag_get_self (q t : string) (g : Graph) (nd : Node) :
  q <> t -> Dict.get q g = Some nd ->
  Dict.get q (add_tag q g t)
  = Some (mkNode (n_attrs nd) (Dict.set t "HAS TAG" (n_adj nd))).
Proof.
  intros Hne Hq. unfold add_tag. apply add_edge_get_self.
  - exact Hne.
  - rewrite absent_add_get; [exact Hq | now left].
  - apply absent_add_has.
Qed.

Lemma add_tag_get_other (n q t : string) (g : Graph) :
  n <> q -> n <> t -> has_node q g = true ->
  Dict.get n (add_tag q g t) = Dict.get n g.
Proof.
  intros Hq Ht Pq. unfold add_tag. rewrite add_edge_get_frame.
  - apply absent_add_get. now left.
  - exact Hq.
  - exact Ht.
  - now apply absent_add_mono.
  - apply absent_add_has.
Qed.

Lemma fold_tags_mono (n q : string) (tags : list string) :
  forall g, has_node n g = true ->
            has_node n (fold_left (add_tag q) tags g) = true.
Proof.
  induction tags as [|t tags IH]; intros g H; simpl; [exact H|].
  now apply IH, add_tag_mono.
Qed.

Lemma fold_tags_get_self (q : string) (tags : list string) :
  ~ In q tags ->
  forall g nd, Dict.get q g = Some nd ->
    Dict.get q (fold_left (add_tag q) tags g)
    = Some (mkNode (n_attrs nd)
              (fold_left (fun adj t => Dict.set t "HAS TAG" adj) tags (n_adj nd))).
Proof.
  induction tags as [|t tags IH]; intros Hnin g nd Hq; simpl.
  - now destruct nd.
  - simpl in Hnin.
    rewrite (IH (fun H => Hnin (or_intror H)) _ _
               (@add_tag_get_self q t g nd (fun H => Hnin (or_introl (eq_sym H))) Hq)).
    reflexivity.
Qed.

Lemma fold_tags_get_other (n q : string) (tags : list string) :
  n <> q -> ~ In n tags ->
  forall g, has_node q g = true ->
    Dict.get n (fold_left (add_tag q) tags g) = Dict.get n g.
Proof.
  intros Hq. induction tags as [|t tags IH]; intros Hnin g Pq; simpl;
    [reflexivity|].
  simpl in Hnin. rewrite IH.
  - apply add_tag_get_other; auto.
  - tauto.
  - now apply add_tag_mono.
Qed.

(** *** Nodes that stay outside the products *)

Lemma not_product_set_adj (n u v rel : string) (g : Graph) :
  not_product g n -> not_product (set_adj u v rel g) n.
Proof.
  intros H nd. destruct (string_dec n u) as [->|Hne].
  - destruct (Dict.get u g) as [nd0|] eqn:E.
    + rewrite (@set_adj_get_same u v rel g nd0 E). intros [= <-]. simpl.
      now apply H.
    + unfold set_adj. rewrite E. apply H.
  - rewrite set_adj_get_other by exact Hne. apply H.
Qed.

Lemma not_product_ensure (n m : string) (g : Graph) :
  not_product g n -> not_product (ensure_node m g) n.
Proof.
  unfold ensure_node. destruct (has_node m g); [auto|]. intros H nd.
  destruct (string_dec n m) as [->|Hne].
  - rewrite dict_get_set_same. now intros [= <-].
  - rewrite dict_get_set_other by exact Hne. apply H.
Qed.

Lemma not_product_add_edge (n u v rel : string) (g : Graph) :
  not_product g n -> not_product (add_edge u v rel g) n.
Proof.
  intros H. unfold add_edge.
  now apply not_product_set_adj, not_product_set_adj, not_product_ensure,
    not_product_ensure.
Qed.

Lemma not_product_absent_add (n m : string) (a : Attrs) (g : Graph) :
  is_product a = false ->
  not_product g n ->
  not_product (if has_node m g then g else add_node m a g) n.
Proof.
  intros Ha H. destruct (has_node m g) eqn:E; [exact H|]. intros nd.
  destruct (string_dec n m) as [->|Hne].
  - unfold add_node. unfold has_node, Dict.mem in E.
    destruct (Dict.get m g); [discriminate|].
    rewrite dict_get_set_same. now intros [= <-].
  - rewrite add_node_get_other by exact Hne. apply H.
Qed.

Lemma not_product_add_tag (n q t : string) (g : Graph) :
  not_product g n -> not_product (add_tag q g t) n.
Proof.
  intros H. unfold add_tag.
  now apply not_product_add_edge, not_product_absent_add.
Qed.

Lemma not_product_fold_tags (n q : string) (tags : list string) :
  forall g, not_product g n -> not_product (fold_left (add_tag q) tags g) n.
Proof.
  induction tags as [|t tags IH]; intros g H; simpl; [exact H|].
  now apply IH, not_product_add_tag.
Qed.

Lemma not_product_add_product (n q cat b : string) (p : float) (st : bool)
    (tags : list string) (g : Graph) :
  n <> q -> not_product g n ->
  not_product (add_product g q cat b p st tags) n.
Proof.
  intros Hne H. unfold add_product.
  apply not_product_fold_tags, not_product_add_edge, not_product_absent_add;
    [reflexivity|].
  intros nd. rewrite add_node_get_other by exact Hne. apply H.
Qed.

(** *** One record *)

Lemma add_product_get_self (q cat b : string) (p : float) (st : bool)
    (tags : list string) (g : Graph) :
  q <> cat -> ~ In q tags -> Dict.get q g = None ->
  Dict.get q (add_product g q cat b p st tags)
  = Some (mkNode (product_attrs b cat p st tags)
            (fold_left (fun adj t => Dict.set t "HAS TAG" adj) tags
                       [(cat, "IS A")])).
Proof.
  intros Hc Ht Hq. unfold add_product.
  set (g1 := add_node q (product_attrs b cat p st tags) g).
  assert (H1 : Dict.get q g1 = Some (mkNode (product_attrs b cat p st tags) [])).
  { unfold g1, add_node. rewrite Hq. apply dict_get_set_same. }
  set (g2 := if has_node cat g1 then g1
             else add_node cat (type_attrs "category") g1).
  assert (H2 : Dict.get q g2 = Some (mkNode (product_attrs b cat p st tags) [])).
  { unfold g2. rewrite absent_add_get; [exact H1 | now left]. }
  assert (P2 : has_node cat g2 = true) by apply absent_add_has.
  pose proof (@add_edge_get_self q cat "IS A" g2 _ Hc H2 P2) as H3.
  rewrite (@fold_tags_get_self q tags Ht _ _ H3). reflexivity.
Qed.

Lemma add_product_get_other (n q cat b : string) (p : float) (st : bool)
    (tags : list string) (g : Graph) :
  n <> q -> n <> cat -> ~ In n tags ->
  Dict.get n (add_product g q cat b p st tags) = Dict.get n g.
Proof.
  intros Hq Hc Ht. unfold add_product.
  set (g1 := add_node q (product_attrs b cat p st tags) g).
  set (g2 := if has_node cat g1 then g1
             else add_node cat (type_attrs "category") g1).
  assert (P1 : has_node q g1 = true) by apply add_node_has.
  assert (P2 : has_node q g2 = true) by now apply absent_add_mono.
  assert (P2' : has_node cat g2 = true) by apply absent_add_has.
  rewrite fold_tags_get_other;
    [| exact Hq | exact Ht | now apply add_edge_mono].
  rewrite add_edge_get_frame by assumption.
  unfold g2. rewrite absent_add_get by now left.
  now apply add_node_get_other.
Qed.

(** *** All records *)

Lemma add_row_inv (f : string -> option float) (g g' : Graph) (r : Row) :
  add_row f g r = Ok g' ->
  exists p, f (r_price r) = Some p /\
    g' = add_product g (r_id r) (r_category r) (r_brand r) p
           (String.eqb (lower (r_stock r)) "true") (row_tags r).
Proof.
  unfold add_row. destruct (f (r_price r)) as [p|]; cbn [bind]; [|discriminate].
  intros [= <-]. now exists p.
Qed.

Lemma add_rows_app (f : string -> option float) (l1 l2 : list Row) :
  forall g, add_rows f g (l1 ++ l2)
            = (g1 <- add_rows f g l1 ;; add_rows f g1 l2).
Proof.
  induction l1 as [|r l1 IH]; intros g; simpl; [reflexivity|].
  destruct (add_row f g r); simpl; [apply IH | reflexivity].
Qed.

Lemma add_rows_get_other (n : string) (f : string -> option float)
    (rows : list Row) :
  Forall (fun r => n <> r_id r /\ n <> r_category r /\ ~ In n (row_tags r)) rows ->
  forall g g', add_rows f g rows = Ok g' -> Dict.get n g' = Dict.get n g.
Proof.
  induction 1 as [|r rows (Hi & Hc & Ht) _ IH]; intros g g'; cbn [add_rows].
  - now intros [= <-].
  - destruct (add_row f g r) as [g1|] eqn:E; cbn [bind]; [|discriminate].
    intros H. rewrite (IH _ _ H).
    destruct (add_row_inv _ _ _ E) as (p & _ & ->).
    now apply add_product_get_other.
Qed.

Lemma add_rows_not_product (n : string) (f : string -> option float)
    (rows : list Row) :
  Forall (fun r => n <> r_id r) rows ->
  forall g g', not_product g n -> add_rows f g rows = Ok g' -> not_product g' n.
Proof.
  induction 1 as [|r rows Hi _ IH]; intros g g' Hn; cbn [add_rows].
  - now intros [= <-].
  - destruct (add_row f g r) as [g1|] eqn:E; cbn [bind]; [|discriminate].
    apply IH. destruct (add_row_inv _ _ _ E) as (p & _ & ->).
    now apply not_product_add_product.
Qed.

(** *** The adjacency of a product *)

Lemma add_distinct_In (ts : list string) (t x : string) :
  In x (add_distinct ts t) <-> In x ts \/ x = t.
Proof.
  unfold add_distinct. destruct (str_in t ts) eqn:E.
  - apply str_in_In in E. split; [auto|]. intros [H | ->]; assumption.
  - rewrite in_app_iff. simpl. intuition.
Qed.

Lemma add_distinct_NoDup (ts : list string) (t : string) :
  NoDup ts -> NoDup (add_distinct ts t).
Proof.
  intros H. unfold add_distinct. destruct (str_in t ts) eqn:E; [exact H|].
  apply str_in_not_In in E. apply NoDup_app; [exact H | repeat constructor; simpl; tauto|].
  intros x Hx [<-|[]]. contradiction.
Qed.

Lemma fold_distinct_In (tags : list string) :
  forall ts x, In x (fold_left add_distinct tags ts) <-> In x ts \/ In x tags.
Proof.
  induction tags as [|t tags IH]; intros ts x; simpl; [tauto|].
  rewrite IH, add_distinct_In. intuition.
Qed.

Lemma fold_distinct_NoDup (tags : list string) :
  forall ts, NoDup ts -> NoDup (fold_left add_distinct tags ts).
Proof.
  induction tags as [|t tags IH]; intros ts H; simpl; [exact H|].
  now apply IH, add_distinct_NoDup.
Qed.

Lemma set_tag_map (t : string) (ts : list string) :
  Dict.set t "HAS TAG" (map has_tag_edge ts) = map has_tag_edge (add_distinct ts t).
Proof.
  unfold add_distinct. induction ts as [|x ts IH]; [reflexivity|].
  cbn [map Dict.set has_tag_edge str_in existsb]. fold (str_in t ts).
  destruct (String.eqb t x) eqn:E; cbn [orb].
  - apply String.eqb_eq in E. now subst.
  - fold (has_tag_edge x). rewrite IH. now destruct (str_in t ts).
Qed.

Lemma fold_set_tags (cat : string) (tags : list string) :
  ~ In cat tags ->
  forall ts,
    fold_left (fun adj t => Dict.set t "HAS TAG" adj) tags
              ((cat, "IS A") :: map has_tag_edge ts)
    = (cat, "IS A") :: map has_tag_edge (fold_left add_distinct tags ts).
Proof.
  induction tags as [|t tags IH]; intros Hnin ts; [reflexivity|].
  simpl in Hnin. cbn [fold_left Dict.set].
  assert (E : String.eqb t cat = false) by (apply String.eqb_neq; intuition).
  rewrite E, set_tag_map. apply IH. tauto.
Qed.

Lemma filter_is_a_tags (ts : list string) :
  filter (fun kv : string * string => String.eqb (snd kv) "IS A")
         (map has_tag_edge ts) = [].
Proof. induction ts as [|t ts IH]; [reflexivity | exact IH]. Qed.

Lemma filter_has_tag_tags (ts : list string) :
  filter (fun kv : string * string => String.eqb (snd kv) "HAS TAG")
         (map has_tag_edge ts) = map has_tag_edge ts.
Proof.
  induction ts as [|t ts IH]; [reflexivity|]. simpl. now rewrite IH.
Qed.

(** *** The conditions on a catalogue, as propositions *)

Lemma no_repeat_NoDup (l : list string) : no_repeat l = true -> NoDup l.
Proof.
  induction l as [|x l IH]; simpl; [constructor|].
  rewrite andb_true_iff, negb_true_iff, str_in_not_In.
  intros [Hx Hl]. constructor; auto.
Qed.

Lemma ids_apart_spec (rows : list Row) :
  ids_apart rows = true ->
  forall r r', In r rows -> In r' rows ->
    r_id r <> r_category r' /\ ~ In (r_id r) (row_tags r').
Proof.
  unfold ids_apart. rewrite forallb_forall. intros H r r' Hr Hr'.
  specialize (H r Hr). rewrite forallb_forall in H. specialize (H r' Hr').
  rewrite andb_true_iff, !negb_true_iff, str_in_not_In in H.
  destruct H as [H1 H2]. now apply String.eqb_neq in H1.
Qed.

Lemma category_not_tag_spec (rows : list Row) :
  category_not_tag rows = true ->
  forall r, In r rows -> ~ In (r_category r) (row_tags r).
Proof.
  unfold category_not_tag. rewrite forallb_forall. intros H r Hr.
  specialize (H r Hr). now rewrite negb_true_iff, str_in_not_In in H.
Qed.

(** ** Built graphs are well formed *)

Lemma dict_set_In (V : Type) (k : string) (v : V) (d : Dict.t V) (x : string * V) :
  In x (Dict.set k v d) -> x = (k, v) \/ In x d.
Proof.
  induction d as [|[k' v'] d IH]; simpl.
  - intros [<-|[]]. now left.
  - destruct (String.eqb k k'); simpl.
    + intros [<-|H]; auto.
    + intros [<-|H]; auto. destruct (IH H); auto.
Qed.

Lemma dict_set_keys (V : Type) (k : string) (v : V) (d : Dict.t V) (n : string) :
  In n (Dict.keys (Dict.set k v d)) -> n = k \/ In n (Dict.keys d).
Proof.
  unfold Dict.keys. rewrite in_map_iff. intros ([k' v'] & <- & H).
  apply dict_set_In in H. destruct H as [[= -> ->]|H]; [now left|].
  right. apply in_map_iff. now exists (k', v').
Qed.

Lemma node_wf_mono (known known' : string -> Prop) (nd : Node) :
  (forall n, known n -> known' n) -> node_wf known nd -> node_wf known' nd.
Proof.
  intros Hm [Hc Hp]. split; [auto|].
  intros H. destruct (Hp H) as (b & c & p & s & t & E & Hk).
  exists b, c, p, s, t. auto.
Qed.

Lemma graph_wf_transfer (pending pending' : string -> Prop) (g g' : Graph) :
  graph_wf pending g ->
  (forall n, pending n \/ has_node n g = true ->
             pending' n \/ has_node n g' = true) ->
  (forall k nd, In (k, nd) g' ->
     In (k, nd) g \/
     node_wf (fun n => pending' n \/ has_node n g' = true) nd) ->
  graph_wf pending' g'.
Proof.
  intros Hwf Hm Hn k nd Hin. destruct (Hn k nd Hin) as [H|H]; [|exact H].
  eapply node_wf_mono; [exact Hm | exact (Hwf k nd H)].
Qed.

Lemma graph_wf_set_adj (pending : string -> Prop) (u v rel : string) (g : Graph) :
  graph_wf pending g -> has_node v g = true ->
  graph_wf pending (set_adj u v rel g).
Proof.
  intros Hwf Hv. apply graph_wf_transfer with (1 := Hwf).
  - intros n [H|H]; [now left | right]. now rewrite set_adj_has.
  - intros k nd. unfold set_adj at 1.
    destruct (Dict.get u g) as [nd0|] eqn:E; [|now left].
    intros Hin. apply dict_set_In in Hin. destruct Hin as [[= -> ->]|Hin];
      [right | now left].
    destruct (Hwf u nd0 (dict_get_In _ _ E)) as [Hc Hp]. split.
    + cbn [n_adj]. intros n Hn. apply dict_set_keys in Hn.
      destruct Hn as [->|Hn].
      * right. now rewrite set_adj_has.
      * destruct (Hc n Hn) as [H|H]; [now left | right].
        now rewrite set_adj_has.
    + cbn [n_attrs]. intros H. destruct (Hp H) as (b & c & p & s & t & Ea & Hk).
      exists b, c, p, s, t. split; [exact Ea|].
      destruct Hk as [Hk|Hk]; [now left | right]. now rewrite set_adj_has.
Qed.

Lemma graph_wf_ensure (pending : string -> Prop) (m : string) (g : Graph) :
  graph_wf pending g -> graph_wf pending (ensure_node m g).
Proof.
  intros Hwf. apply graph_wf_transfer with (1 := Hwf).
  - intros n [H|H]; [now left | right]. now apply ensure_node_mono.
  - intros k nd. unfold ensure_node at 1. destruct (has_node m g); [now left|].
    intros Hin. apply dict_set_In in Hin. destruct Hin as [[= -> ->]|Hin];
      [right | now left].
    split; [intros n [] | discriminate].
Qed.

Lemma graph_wf_add_edge (pending : string -> Prop) (u v rel : string) (g : Graph) :
  graph_wf pending g -> graph_wf pending (add_edge u v rel g).
Proof.
  intros Hwf. unfold add_edge.
  apply graph_wf_set_adj; [apply graph_wf_set_adj|].
  - now apply graph_wf_ensure, graph_wf_ensure.
  - apply ensure_node_has.
  - rewrite set_adj_has. apply ensure_node_mono, ensure_node_has.
Qed.

Lemma graph_wf_absent_add (pending : string -> Prop) (m : string) (a : Attrs)
    (g : Graph) :
  is_product a = false ->
  graph_wf pending g ->
  graph_wf pending (if has_node m g then g else add_node m a g).
Proof.
  intros Ha Hwf. destruct (has_node m g) eqn:E; [exact Hwf|].
  apply graph_wf_transfer with (1 := Hwf).
  - intros n [H|H]; [now left | right]. now apply add_node_mono.
  - intros k nd. unfold add_node at 1. unfold has_node, Dict.mem in E.
    destruct (Dict.get m g); [discriminate|].
    intros Hin. apply dict_set_In in Hin. destruct Hin as [[= -> ->]|Hin];
      [right | now left].
    split; [intros n [] | cbn [n_attrs]; congruence].
Qed.

Lemma graph_wf_add_tag (q t : string) (g : Graph) :
  graph_wf nothing g -> graph_wf nothing (add_tag q g t).
Proof.
  intros Hwf. unfold add_tag.
  now apply graph_wf_add_edge, graph_wf_absent_add.
Qed.

Lemma graph_wf_fold_tags (q : string) (tags : list string) :
  forall g, graph_wf nothing g -> graph_wf nothing (fold_left (add_tag q) tags g).
Proof.
  induction tags as [|t tags IH]; intros g H; simpl; [exact H|].
  now apply IH, graph_wf_add_tag.
Qed.

(** After [add_node(product_id, ...)] the category is pending. *)
Lemma graph_wf_add_product_node (q cat b : string) (p : float) (st : bool)
    (tags : list string) (g : Graph) :
  graph_wf nothing g ->
  graph_wf (eq cat) (add_node q (product_attrs b cat p st tags) g).
Proof.
  intros Hwf. apply graph_wf_transfer with (1 := Hwf).
  - intros n [[]|H]. right. now apply add_node_mono.
  - intros k nd. unfold add_node at 1.
    destruct (Dict.get q g) as [nd0|] eqn:E; intros Hin;
      apply dict_set_In in Hin; destruct Hin as [[= -> ->]|Hin];
      try (now left); right.
    + destruct (Hwf q nd0 (dict_get_In _ _ E)) as [Hc _]. split.
      * cbn [n_adj]. intros n Hn. destruct (Hc n Hn) as [[]|H].
        right. now apply add_node_mono.
      * intros _. exists b, cat, p, st, tags. cbn [n_attrs]. split; [reflexivity|].
        now left.
    + split; [intros n []|]. intros _. exists b, cat, p, st, tags.
      split; [reflexivity | now left].
Qed.

(** Once the category node exists nothing is pending. *)
Lemma graph_wf_settle (cat : string) (g : Graph) :
  graph_wf (eq cat) g -> has_node cat g = true -> graph_wf nothing g.
Proof.
  intros Hwf Hc. apply graph_wf_transfer with (1 := Hwf).
  - intros n [<-|H]; now right.
  - intros k nd H. now left.
Qed.

Lemma graph_wf_add_product (q cat b : string) (p : float) (st : bool)
    (tags : list string) (g : Graph) :
  graph_wf nothing g -> graph_wf nothing (add_product g q cat b p st tags).
Proof.
  intros Hwf. unfold add_product.
  apply graph_wf_fold_tags, graph_wf_add_edge.
  apply graph_wf_settle with (cat := cat); [|apply absent_add_has].
  apply graph_wf_absent_add; [reflexivity|].
  now apply graph_wf_add_product_node.
Qed.

Lemma graph_wf_add_rows (f : string -> option float) (rows : list Row) :
  forall g g', graph_wf nothing g -> add_rows f g rows = Ok g' ->
               graph_wf nothing g'.
Proof.
  induction rows as [|r rows IH]; intros g g' Hwf; cbn [add_rows].
  - now intros [= <-].
  - destruct (add_row f g r) as [g1|] eqn:E; cbn [bind]; [|discriminate].
    apply IH. destruct (@add_row_inv f g g1 r E) as (p & _ & ->).
    now apply graph_wf_add_product.
Qed.

Lemma graph_wf_ok (g : Graph) : graph_wf nothing g -> graph_ok g = true.
Proof.
  intros Hwf. unfold graph_ok, adj_closed, products_ok.
  apply andb_true_iff. split; apply forallb_forall; intros [k nd] Hin;
    destruct (Hwf k nd Hin) as [Hc Hp]; cbn [snd].
  - apply forallb_forall. intros n Hn. now destruct (Hc n Hn) as [[]|H].
  - destruct (is_product (n_attrs nd)); [|reflexivity]. cbn [implb].
    destruct (Hp eq_refl) as (b & c & p & s & t & -> & [[]|Hk]). exact Hk.
Qed.

(** Every graph [createGraph] returns is well formed. *)
Lemma createGraph_ok (f : string -> option float) (rows : list Row) (g : Graph) :
  createGraph f rows = Ok g -> graph_ok g = true.
Proof.
  intros H. apply graph_wf_ok.
  apply (@graph_wf_add_rows f rows [] g); [|exact H]. intros k nd [].
Qed.

Lemma product_node_attrs (g : Graph) (p : string) (a : Attrs) :
  products_ok g = true ->
  nodes_get g p = Ok a ->
  is_product a = true ->
  exists b c pr st tg,
    a = product_attrs b c pr st tg /\ has_node c g = true.
Proof.
  unfold products_ok, nodes_get. rewrite forallb_forall. intros Hok Hn Hp.
  destruct (Dict.get p g) as [nd|] eqn:Hget; [|discriminate].
  injection Hn as <-. apply dict_get_In in Hget. specialize (Hok _ Hget).
  simpl in Hok. rewrite Hp in Hok. simpl in Hok.
  unfold full_product in Hok. unfold is_product in Hp.
  destruct (n_attrs nd) as [ty b c pr st tg]. simpl in *.
  destruct ty as [ty|]; [|discriminate]. apply String.eqb_eq in Hp. subst ty.
  destruct b as [b|], c as [c|], pr as [pr|], st as [st|], tg as [tg|];
    try discriminate.
  now exists b, c, pr, st, tg.
Qed.

(** ** The builder: prices and stock tokens *)

Lemma add_rows_ext (f1 f2 : string -> option float) (rows : list Row) :
  Forall (fun r => f1 (r_price r) = f2 (r_price r)) rows ->
  forall g, add_rows f1 g rows = add_rows f2 g rows.
Proof.
  induction 1 as [|r rows Hr _ IH]; intros g; [reflexivity|].
  cbn [add_rows]. unfold add_row. rewrite Hr.
  destruct (f2 (r_price r)); cbn [bind]; [apply IH | reflexivity].
Qed.

Lemma add_rows_raises (py_float : string -> option float) (rows : list Row) :
  forall g e, add_rows py_float g rows = Raise e ->
    e = ValueError /\ Exists (fun r => py_float (r_price r) = None) rows.
Proof.
  induction rows as [|r rows IH]; intros g e; cbn [add_rows]; [discriminate|].
  unfold add_row. destruct (py_float (r_price r)) eqn:E; cbn [bind].
  - intros H. destruct (IH _ _ H) as [-> Hex]. split; [reflexivity|].
    now apply Exists_cons_tl.
  - intros [= <-]. split; [reflexivity|]. now apply Exists_cons_hd.
Qed.

Lemma add_rows_returns (py_float : string -> option float) (rows : list Row) :
  forall g g', add_rows py_float g rows = Ok g' ->
    Forall (numeric py_float) rows.
Proof.
  induction rows as [|r rows IH]; intros g g'; cbn [add_rows]; [constructor|].
  unfold add_row. destruct (py_float (r_price r)) eqn:E; cbn [bind];
    [|discriminate].
  intros H. constructor; [unfold numeric; congruence | eapply IH; exact H].
Qed.

(** [createGraph] ends in exactly one of the two ways. *)
Lemma add_rows_total (py_float : string -> option float) (rows : list Row)
    (g : Graph) :
  (exists g', add_rows py_float g rows = Ok g') \/
  add_rows py_float g rows = Raise ValueError.
Proof.
  destruct (add_rows py_float g rows) as [g'|e] eqn:E; [eauto|].
  right. now destruct (add_rows_raises _ _ _ E) as [-> _].
Qed.

(** ** The builder: the edges of a product node *)

(** Every product node of a built graph is the id of some record. *)
Lemma product_node_is_row (f : string -> option float) (rows : list Row)
    (g : Graph) (p : string) (nd : Node) :
  createGraph f rows = Ok g ->
  Dict.get p g = Some nd ->
  is_product (n_attrs nd) = true ->
  exists r, In r rows /\ r_id r = p.
Proof.
  intros Hg Hget Hp.
  destruct (in_dec string_dec p (map r_id rows)) as [Hin|Hnin].
  - apply in_map_iff in Hin. destruct Hin as (r & Hr & Hin). now exists r.
  - exfalso.
    assert (Hall : Forall (fun r => p <> r_id r) rows).
    { apply Forall_forall. intros r Hr Heq. apply Hnin, in_map_iff.
      exists r. split; [now symmetry | exact Hr]. }
    assert (Hnp : not_product g p).
    { apply (@add_rows_not_product p f rows Hall [] g); [|exact Hg].
      intros nd0. discriminate. }
    specialize (Hnp nd Hget). congruence.
Qed.

(** C9 (amended): on a catalogue in which no id repeats, no id is used as
    a category or a tag, and no record lists its own category among its
    tags, every product node of the built graph has exactly one IS A edge,
    to its category, and one HAS TAG edge per distinct tag string, and no
    other edge. *)
Theorem createGraph_product_edges (py_float : string -> option float)
    (rows : list Row) (g : Graph) (p : string) (nd : Node) :
  catalogue_ok rows = true ->
  createGraph py_float rows = Ok g ->
  Dict.get p g = Some nd ->
  is_product (n_attrs nd) = true ->
  exists r price,
    In r rows /\ r_id r = p /\
    py_float (r_price r) = Some price /\
    n_attrs nd = product_attrs (r_brand r) (r_category r) price
                   (String.eqb (lower (r_stock r)) "true") (row_tags r) /\
    has_node (r_category r) g = true /\
    is_a_edges nd = [(r_category r, "IS A")] /\
    has_tag_edges nd = map has_tag_edge (distinct (row_tags r)) /\
    n_adj nd = is_a_edges nd ++ has_tag_edges nd /\
    NoDup (distinct (row_tags r)) /\
    (forall t, In t (distinct (row_tags r)) <-> In t (row_tags r)).
Proof.
  intros Hok Hg Hget Hp. unfold catalogue_ok in Hok.
  rewrite !andb_true_iff in Hok. destruct Hok as [[Hu Ha] Hc].
  assert (Hcat : forall b c pr st tg,
            n_attrs nd = product_attrs b c pr st tg -> has_node c g = true).
  { intros b c pr st tg E.
    pose proof (createGraph_ok _ _ Hg) as Hgok. unfold graph_ok in Hgok.
    apply andb_true_iff in Hgok. destruct Hgok as [_ Hprod].
    assert (Hn : nodes_get g p = Ok (n_attrs nd))
      by (unfold nodes_get; now rewrite Hget).
    destruct (@product_node_attrs g p (n_attrs nd) Hprod Hn Hp)
      as (b' & c' & pr' & st' & tg' & E' & Hc').
    rewrite E in E'. now injection E' as _ -> _ _ _. }
  pose proof (no_repeat_NoDup _ Hu) as Hnd.
  pose proof (ids_apart_spec _ Ha) as Hapart.
  pose proof (category_not_tag_spec _ Hc) as Hct.
  destruct (@product_node_is_row py_float rows g p nd Hg Hget Hp)
    as (r & Hr & Hid).
  subst p.
  destruct (in_split _ _ Hr) as (l1 & l2 & Hrows).
  assert (Havoid : forall r', In r' rows -> r_id r' <> r_id r ->
            r_id r <> r_id r' /\ r_id r <> r_category r' /\
            ~ In (r_id r) (row_tags r')).
  { intros r' Hr' Hne. destruct (Hapart r r' Hr Hr') as [H1 H2].
    repeat split; auto. }
  rewrite Hrows, map_app in Hnd. cbn [map] in Hnd.
  pose proof (NoDup_remove_2 _ _ _ Hnd) as Hnot. rewrite in_app_iff in Hnot.
  assert (H1 : Forall (fun r' => r_id r <> r_id r' /\ r_id r <> r_category r' /\
                                 ~ In (r_id r) (row_tags r')) l1).
  { apply Forall_forall. intros r' Hr'. apply Havoid.
    - rewrite Hrows. apply in_or_app. now left.
    - intros Heq. apply Hnot. left. apply in_map_iff. now exists r'. }
  assert (H2 : Forall (fun r' => r_id r <> r_id r' /\ r_id r <> r_category r' /\
                                 ~ In (r_id r) (row_tags r')) l2).
  { apply Forall_forall. intros r' Hr'. apply Havoid.
    - rewrite Hrows. apply in_or_app. right. now right.
    - intros Heq. apply Hnot. right. apply in_map_iff. now exists r'. }
  unfold createGraph in Hg. rewrite Hrows, add_rows_app in Hg.
  destruct (add_rows py_float [] l1) as [g1|] eqn:E1; cbn [bind] in Hg;
    [|discriminate].
  cbn [add_rows] in Hg.
  destruct (add_row py_float g1 r) as [g2|] eqn:E2; cbn [bind] in Hg;
    [|discriminate].
  pose proof (@add_rows_get_other (r_id r) py_float l1 H1 [] g1 E1) as G1.
  simpl in G1.
  pose proof (@add_rows_get_other (r_id r) py_float l2 H2 g2 g Hg) as G2.
  destruct (@add_row_inv py_float g1 g2 r E2) as (price & Hprice & ->).
  destruct (Hapart r r Hr Hr) as [Hpc Hpt].
  rewrite (@add_product_get_self (r_id r) (r_category r) (r_brand r) price
             (String.eqb (lower (r_stock r)) "true") (row_tags r) g1
             Hpc Hpt G1) in G2.
  rewrite Hget in G2. injection G2 as ->.
  specialize (Hcat _ _ _ _ _ eq_refl).
  pose proof (@fold_set_tags (r_category r) (row_tags r) (Hct r Hr) []) as Hshape.
  cbn [map] in Hshape. fold (distinct (row_tags r)) in Hshape.
  exists r, price. unfold is_a_edges, has_tag_edges. cbn [n_attrs n_adj].
  rewrite Hshape. cbn [filter snd].
  rewrite filter_is_a_tags, filter_has_tag_tags.
  repeat split; auto.
  - apply fold_distinct_NoDup. constructor.
  - intros H. apply fold_distinct_In in H. destruct H as [[]|H]. exact H.
  - intros H. apply fold_distinct_In. now right.
Qed.

(** ** Breadth-first search *)

Lemma bfs_weight_nil (g : Graph) : bfs_weight g [] = graph_size g.
Proof.
  induction g as [|[k nd] g IH]; simpl; [reflexivity | now rewrite IH].
Qed.

Lemma bfs_weight_mono (g : Graph) (x : string) (visited : list string) :
  bfs_weight g (x :: visited) <= bfs_weight g visited.
Proof.
  induction g as [|[k nd] g IH]; simpl; [lia|].
  destruct (String.eqb k x); simpl; destruct (str_in k visited); lia.
Qed.

Lemma bfs_weight_visit (g : Graph) (x : string) (nd : Node)
    (visited : list string) :
  Dict.get x g = Some nd ->
  str_in x visited = false ->
  S (length (n_adj nd)) + bfs_weight g (x :: visited) <= bfs_weight g visited.
Proof.
  intros Hget Hnv. induction g as [|[k nd'] g IH]; simpl in *; [discriminate|].
  destruct (String.eqb x k) eqn:E.
  - apply String.eqb_eq in E. subst k. injection Hget as ->.
    rewrite String.eqb_refl. simpl. rewrite Hnv.
    pose proof (bfs_weight_mono g x visited). lia.
  - rewrite String.eqb_sym, E. simpl. specialize (IH Hget).
    destruct (str_in k visited); lia.
Qed.

Lemma filter_length_le (A : Type) (f : A -> bool) (l : list A) :
  length (filter f l) <= length l.
Proof.
  induction l as [|a l IH]; simpl; [lia|]. destruct (f a); simpl; lia.
Qed.

(** Enough fuel: the loop ends before the fuel does. *)
Lemma bfs_loop_fuel (fuel : nat) (g : Graph) (s : string) :
  forall visited queue pl,
    length queue + bfs_weight g visited < fuel ->
    bfs_loop fuel g s visited queue pl <> None.
Proof.
  induction fuel as [|fuel IH]; intros visited queue pl Hlt; [lia|].
  cbn [bfs_loop]. destruct queue as [|node queue]; [discriminate|].
  simpl in Hlt.
  destruct (str_in node visited) eqn:Hv.
  - apply IH. lia.
  - unfold nodes_get, neighbors.
    destruct (Dict.get node g) as [nd|] eqn:Hget; [|discriminate].
    apply IH. rewrite length_app.
    pose proof (bfs_weight_visit g node visited Hget Hv).
    pose proof (filter_length_le
      (fun neighbor => negb (str_in neighbor (node :: visited)))
      (Dict.keys (n_adj nd))).
    unfold Dict.keys in *. rewrite length_map in *. lia.
Qed.

(** More fuel does not change a result. *)
Lemma bfs_loop_more_fuel (fuel : nat) (g : Graph) (s : string) :
  forall visited queue pl r,
    bfs_loop fuel g s visited queue pl = Some r ->
    forall fuel', fuel <= fuel' ->
      bfs_loop fuel' g s visited queue pl = Some r.
Proof.
  induction fuel as [|fuel IH]; intros visited queue pl r H fuel' Hle;
    [discriminate|].
  destruct fuel' as [|fuel']; [lia|]. cbn [bfs_loop] in *.
  destruct queue as [|node queue]; [exact H|].
  destruct (str_in node visited); [apply IH with (1 := H); lia|].
  destruct (nodes_get g node); [|exact H].
  destruct (neighbors g node); [|exact H].
  apply IH with (1 := H). lia.
Qed.

Lemma adj_closed_neighbors (g : Graph) (n : string) (nd : Node) :
  adj_closed g = true ->
  Dict.get n g = Some nd ->
  Forall (fun x => has_node x g = true) (Dict.keys (n_adj nd)).
Proof.
  unfold adj_closed. rewrite forallb_forall. intros Hc Hget.
  apply dict_get_In in Hget. specialize (Hc _ Hget). simpl in Hc.
  rewrite forallb_forall in Hc. now apply Forall_forall.
Qed.

(** On a graph whose adjacency only names nodes, the loop raises nothing. *)
Lemma bfs_loop_no_raise (fuel : nat) (g : Graph) (s : string) :
  adj_closed g = true ->
  forall visited queue pl e,
    Forall (fun x => has_node x g = true) queue ->
    bfs_loop fuel g s visited queue pl <> Some (Raise e).
Proof.
  intros Hc. induction fuel as [|fuel IH]; intros visited queue pl e Hq;
    [discriminate|].
  cbn [bfs_loop]. destruct queue as [|node queue]; [discriminate|].
  inversion Hq as [|? ? Hn Hq']; subst.
  destruct (str_in node visited).
  - now apply IH.
  - unfold nodes_get, neighbors. unfold has_node, Dict.mem in Hn.
    destruct (Dict.get node g) as [nd|] eqn:Hget; [|discriminate].
    apply IH. apply Forall_app. split; [exact Hq'|].
    pose proof (adj_closed_neighbors g node Hc Hget) as Hall.
    rewrite Forall_forall in *. intros x Hx.
    apply filter_In in Hx. now apply Hall.
Qed.

Lemma bfs_loop_inv (fuel : nat) (g : Graph) (s : string) :
  forall visited queue pl res,
    bfs_inv g s visited pl ->
    bfs_loop fuel g s visited queue pl = Some (Ok res) ->
    exists visited', bfs_inv g s visited' res.
Proof.
  induction fuel as [|fuel IH]; intros visited queue pl res Hinv; [discriminate|].
  cbn [bfs_loop]. destruct queue as [|node queue].
  - intros [= <-]. now exists visited.
  - destruct (str_in node visited) eqn:Hv; [now apply IH|].
    destruct (nodes_get g node) as [a|] eqn:Ha; [|discriminate].
    destruct (neighbors g node) as [ns|]; [|discriminate].
    apply IH. destruct Hinv as [Hnd Hall].
    assert (Hall' : Forall (fun p => In p (node :: visited) /\ p <> s /\
               exists a, nodes_get g p = Ok a /\ is_product a = true) pl).
    { eapply Forall_impl; [|exact Hall]. simpl. intros p [? ?]. auto. }
    destruct (negb (String.eqb node s) && is_product a) eqn:Hc.
    + apply andb_true_iff in Hc. destruct Hc as [Hns Hp].
      apply negb_true_iff, String.eqb_neq in Hns. split.
      * apply NoDup_app; [exact Hnd | repeat constructor; simpl; tauto |].
        intros x Hx [<-|[]]. rewrite Forall_forall in Hall.
        apply str_in_not_In in Hv. apply Hv. now apply Hall.
      * apply Forall_app. split; [exact Hall'|]. constructor; [|constructor].
        split; [now left|]. split; [exact Hns|]. now exists a.
    + now split.
Qed.

Lemma bfsSearch_returns (g : Graph) (s : string) :
  adj_closed g = true ->
  has_node s g = true ->
  exists l, bfsSearch g s = Some (Ok l) /\ bfs_inv g s l l.
Proof.
  intros Hc Hs. unfold bfsSearch.
  destruct (bfs_loop (bfs_fuel g) g s [] [s] []) as [[l|e]|] eqn:E.
  - exists l. split; [reflexivity|].
    destruct (@bfs_loop_inv (bfs_fuel g) g s [] [s] [] l) as [v [Hnd Hall]].
    + split; constructor.
    + exact E.
    + split; [exact Hnd|]. rewrite Forall_forall in *. intros p Hp.
      destruct (Hall p Hp) as [_ H]. split; [exact Hp | exact H].
  - exfalso. eapply bfs_loop_no_raise; [exact Hc | | exact E].
    now constructor.
  - exfalso. eapply bfs_loop_fuel; [|exact E].
    rewrite bfs_weight_nil. unfold bfs_fuel. simpl. lia.
Qed.

(** C10: on a graph whose adjacency only names nodes (every graph that
    networkx holds), [bfsSearch] from a node of the graph returns a list in
    which no identifier occurs twice. *)
Theorem bfsSearch_no_duplicates (g : Graph) (startProduct : string) :
  adj_closed g = true ->
  has_node startProduct g = true ->
  exists l, bfsSearch g startProduct = Some (Ok l) /\ NoDup l.
Proof.
  intros Hc Hs. destruct (bfsSearch_returns g startProduct Hc Hs) as [l [E [Hnd _]]].
  now exists l.
Qed.

(** ** The constraint filter *)

Lemma forallb_str_in (req tags : list string) :
  forallb (fun t => str_in t tags) req = true <->
  (forall t, In t req -> In t tags).
Proof.
  rewrite forallb_forall. split; intros H t Ht; apply str_in_In; auto.
Qed.

Lemma required_tags_loop_spec (data : Attrs) (tags req : list string) :
  a_tags data = Some tags ->
  required_tags_loop data req = Ok (forallb (fun t => str_in t tags) req).
Proof.
  intros Ht. induction req as [|t req IH]; simpl; [reflexivity|].
  rewrite Ht. simpl. destruct (str_in t tags); simpl; [exact IH | reflexivity].
Qed.

Lemma all_tags_in_spec (data : Attrs) (tags req : list string) :
  a_tags data = Some tags ->
  all_tags_in data req = Ok (forallb (fun t => str_in t tags) req).
Proof.
  intros Ht. induction req as [|t req IH]; simpl; [reflexivity|].
  rewrite Ht. simpl. destruct (str_in t tags); simpl; [exact IH | reflexivity].
Qed.

Lemma checkConstraints_value (g : Graph) (productId brand category : string)
    (price : float) (stock : bool) (tags : list string) (maxPrice : float)
    (requiredTags : list string) (preferredBrand : option string) :
  nodes_get g productId = Ok (product_attrs brand category price stock tags) ->
  checkConstraints g productId maxPrice requiredTags preferredBrand =
  Ok (stock && negb (PrimFloat.ltb maxPrice price)
      && forallb (fun t => str_in t tags) requiredTags
      && negb (brand_rejects brand preferredBrand)).
Proof.
  intros Hn. unfold checkConstraints. rewrite Hn. cbn [bind attr product_attrs a_stock a_price a_brand].
  destruct stock; [|reflexivity]. cbn [negb andb].
  destruct (PrimFloat.ltb maxPrice price); [reflexivity|]. cbn [negb andb].
  rewrite (@required_tags_loop_spec _ tags) by reflexivity. cbn [bind].
  destruct (forallb (fun t => str_in t tags) requiredTags); [|reflexivity].
  cbn [negb andb]. destruct preferredBrand as [preferred|]; [|reflexivity].
  unfold brand_rejects. destruct (String.eqb preferred ""); [reflexivity|].
  cbn [negb andb]. now destruct (String.eqb brand preferred).
Qed.

(** C7: on a product node, [checkConstraints] returns (it raises nothing)
    and answers [True] exactly when the product is in stock, its price is
    not above [maxPrice], every required tag is one of its tags, and the
    preferred brand is absent, empty or the product's own.  The function
    reads the graph and returns only the answer. *)
Theorem checkConstraints_iff (g : Graph) (productId brand category : string)
    (price : float) (stock : bool) (tags : list string) (maxPrice : float)
    (requiredTags : list string) (preferredBrand : option string) :
  nodes_get g productId = Ok (product_attrs brand category price stock tags) ->
  exists b,
    checkConstraints g productId maxPrice requiredTags preferredBrand = Ok b /\
    (b = true <->
       stock = true /\
       PrimFloat.ltb maxPrice price = false /\
       (forall tag, In tag requiredTags -> In tag tags) /\
       (preferredBrand = None \/ preferredBrand = Some "" \/
        preferredBrand = Some brand)).
Proof.
  intros Hn. eexists. split; [now apply checkConstraints_value with (1 := Hn)|].
  rewrite !andb_true_iff, !negb_true_iff, forallb_str_in.
  assert (Hb : brand_rejects brand preferredBrand = false <->
               (preferredBrand = None \/ preferredBrand = Some "" \/
                preferredBrand = Some brand)).
  { unfold brand_rejects. destruct preferredBrand as [p|].
    - destruct (String.eqb p "") eqn:E1; simpl.
      + apply String.eqb_eq in E1. subst. tauto.
      + destruct (String.eqb brand p) eqn:E2; simpl.
        * apply String.eqb_eq in E2. subst. tauto.
        * apply String.eqb_neq in E1, E2. split; [discriminate|].
          intros [H|[H|H]]; try discriminate; injection H as ->; congruence.
    - tauto. }
  rewrite Hb. tauto.
Qed.

(** ** The scorer *)

Lemma similar_loop_spec (cc : string) (ns : list string) (score : Z) :
  similar_loop cc ns score = if str_in cc ns then (score + 1)%Z else score.
Proof.
  induction ns as [|n ns IH]; simpl; [reflexivity|].
  rewrite (String.eqb_sym cc n). destruct (String.eqb n cc); simpl; auto.
Qed.

Lemma scoreCandidate_value (g : Graph) (req cand rb rc cb cc : string)
    (rp cp : float) (rs cs : bool) (rt ct : list string) (z : Z) :
  nodes_get g req = Ok (product_attrs rb rc rp rs rt) ->
  nodes_get g cand = Ok (product_attrs cb cc cp cs ct) ->
  category_score g rc cc 0 = Ok z ->
  scoreCandidate g req cand =
  Ok (z + (if String.eqb rb cb then 1 else 0)
        + (if PrimFloat.ltb cp rp then 1 else 0))%Z.
Proof.
  intros Hr Hc Hz. unfold scoreCandidate. rewrite Hr, Hc.
  cbn [bind attr product_attrs a_category a_brand a_price].
  rewrite Hz. cbn [bind].
  destruct (String.eqb rb cb), (PrimFloat.ltb cp rp); f_equal; lia.
Qed.

(** C2 (amended): for two products whose categories differ, the category
    dimension of the score is +1 exactly when the candidate's category is
    among the neighbours of the requested product's category node (a direct
    edge), and 0 otherwise; the score is that term plus the brand and the
    price terms. *)
Theorem scoreCandidate_similar_category (g : Graph)
    (req cand rb rc cb cc : string) (rp cp : float) (rs cs : bool)
    (rt ct ns : list string) :
  nodes_get g req = Ok (product_attrs rb rc rp rs rt) ->
  nodes_get g cand = Ok (product_attrs cb cc cp cs ct) ->
  rc <> cc ->
  neighbors g rc = Ok ns ->
  category_score g rc cc 0 = Ok (if str_in cc ns then 1 else 0)%Z /\
  (In cc ns <-> category_score g rc cc 0 = Ok 1%Z) /\
  scoreCandidate g req cand =
  Ok ((if str_in cc ns then 1 else 0)
      + (if String.eqb rb cb then 1 else 0)
      + (if PrimFloat.ltb cp rp then 1 else 0))%Z.
Proof.
  intros Hr Hc Hne Hns.
  assert (Hcat : category_score g rc cc 0 = Ok (if str_in cc ns then 1 else 0)%Z).
  { unfold category_score. apply String.eqb_neq in Hne. rewrite Hne, Hns.
    cbn [bind]. now rewrite similar_loop_spec. }
  split; [exact Hcat|]. split.
  - rewrite Hcat, <- str_in_In. destruct (str_in cc ns); split; congruence.
  - now apply scoreCandidate_value with (1 := Hr) (2 := Hc).
Qed.

(** ** Edges always touch a product id *)

Lemma edges_touch_set (ids : string -> Prop) (k : string) (v : Node) (g : Graph) :
  edges_touch ids g ->
  (forall n, In n (Dict.keys (n_adj v)) -> ids k \/ ids n) ->
  edges_touch ids (Dict.set k v g).
Proof.
  intros Hg Hv k' nd Hin. apply dict_set_In in Hin.
  destruct Hin as [[= -> ->]|Hin]; [exact Hv | exact (Hg k' nd Hin)].
Qed.

Lemma edges_touch_set_adj (ids : string -> Prop) (u v rel : string) (g : Graph) :
  edges_touch ids g -> ids u \/ ids v ->
  edges_touch ids (set_adj u v rel g).
Proof.
  intros Hg Huv. unfold set_adj.
  destruct (Dict.get u g) as [nd|] eqn:E; [|exact Hg].
  apply edges_touch_set; [exact Hg|]. cbn [n_adj]. intros n Hn.
  apply dict_set_keys in Hn. destruct Hn as [->|Hn]; [exact Huv|].
  exact (Hg u nd (dict_get_In _ _ E) n Hn).
Qed.

Lemma edges_touch_ensure (ids : string -> Prop) (m : string) (g : Graph) :
  edges_touch ids g -> edges_touch ids (ensure_node m g).
Proof.
  intros Hg. unfold ensure_node. destruct (has_node m g); [exact Hg|].
  apply edges_touch_set; [exact Hg | intros n []].
Qed.

Lemma edges_touch_add_node (ids : string -> Prop) (m : string) (a : Attrs)
    (g : Graph) :
  edges_touch ids g -> edges_touch ids (add_node m a g).
Proof.
  intros Hg. unfold add_node. destruct (Dict.get m g) as [nd|] eqn:E;
    (apply edges_touch_set; [exact Hg|]); cbn [n_adj].
  - exact (Hg m nd (dict_get_In _ _ E)).
  - intros n [].
Qed.

Lemma edges_touch_add_edge (ids : string -> Prop) (u v rel : string) (g : Graph) :
  edges_touch ids g -> ids u \/ ids v ->
  edges_touch ids (add_edge u v rel g).
Proof.
  intros Hg Huv. unfold add_edge.
  apply edges_touch_set_adj; [apply edges_touch_set_adj|]; [| exact Huv | tauto].
  now apply edges_touch_ensure, edges_touch_ensure.
Qed.

Lemma edges_touch_add_product (ids : string -> Prop) (q cat b : string)
    (p : float) (st : bool) (tags : list string) (g : Graph) :
  ids q -> edges_touch ids g ->
  edges_touch ids (add_product g q cat b p st tags).
Proof.
  intros Hq Hg. unfold add_product.
  set (g3 := add_edge q cat "IS A" _).
  assert (H3 : edges_touch ids g3).
  { apply edges_touch_add_edge; [|now left].
    destruct (has_node cat _); now repeat apply edges_touch_add_node. }
  clearbody g3. revert g3 H3.
  induction tags as [|t tags IH]; intros g3 H3; simpl; [exact H3|].
  apply IH. unfold add_tag. apply edges_touch_add_edge; [|now left].
  destruct (has_node t g3); [exact H3 | now apply edges_touch_add_node].
Qed.

Lemma edges_touch_add_rows (ids : string -> Prop) (f : string -> option float)
    (rows : list Row) :
  Forall (fun r => ids (r_id r)) rows ->
  forall g g', edges_touch ids g -> add_rows f g rows = Ok g' ->
               edges_touch ids g'.
Proof.
  induction 1 as [|r rows Hr _ IH]; intros g g' Hg; cbn [add_rows].
  - now intros [= <-].
  - destruct (add_row f g r) as [g1|] eqn:E; cbn [bind]; [|discriminate].
    apply IH. destruct (@add_row_inv f g g1 r E) as (p & _ & ->).
    now apply edges_touch_add_product.
Qed.

Lemma add_product_mono (n q cat b : string) (p : float) (st : bool)
    (tags : list string) (g : Graph) :
  has_node n g = true -> has_node n (add_product g q cat b p st tags) = true.
Proof.
  intros H. unfold add_product.
  now apply fold_tags_mono, add_edge_mono, absent_add_mono, add_node_mono.
Qed.

Lemma add_product_has_category (q cat b : string) (p : float) (st : bool)
    (tags : list string) (g : Graph) :
  has_node cat (add_product g q cat b p st tags) = true.
Proof.
  unfold add_product. apply fold_tags_mono, add_edge_mono, absent_add_has.
Qed.

Lemma add_rows_mono (n : string) (f : string -> option float) (rows : list Row) :
  forall g g', has_node n g = true -> add_rows f g rows = Ok g' ->
               has_node n g' = true.
Proof.
  induction rows as [|r rows IH]; intros g g' Hn; cbn [add_rows].
  - now intros [= <-].
  - destruct (add_row f g r) as [g1|] eqn:E; cbn [bind]; [|discriminate].
    apply IH. destruct (@add_row_inv f g g1 r E) as (p & _ & ->).
    now apply add_product_mono.
Qed.

Lemma add_rows_has_category (f : string -> option float) (rows : list Row)
    (r : Row) :
  In r rows ->
  forall g g', add_rows f g rows = Ok g' -> has_node (r_category r) g' = true.
Proof.
  induction rows as [|r0 rows IH]; intros Hin g g'; [destruct Hin|].
  cbn [add_rows]. destruct (add_row f g r0) as [g1|] eqn:E; cbn [bind];
    [|discriminate].
  destruct Hin as [->|Hin]; [|now apply IH].
  destruct (@add_row_inv f g g1 r E) as (p & _ & ->).
  apply add_rows_mono, add_product_has_category.
Qed.

(** On a catalogue whose ids are not used as categories, two category
    nodes are never adjacent: between two records of different categories
    the category dimension of the score is 0. *)
Lemma category_score_without_clash (f : string -> option float)
    (rows : list Row) (g : Graph) (r r' : Row) :
  ids_apart rows = true ->
  createGraph f rows = Ok g ->
  In r rows -> In r' rows ->
  r_category r <> r_category r' ->
  category_score g (r_category r) (r_category r') 0 = Ok 0%Z.
Proof.
  intros Ha Hg Hr Hr' Hne.
  pose proof (ids_apart_spec _ Ha) as Hapart.
  pose proof (@add_rows_has_category f rows r Hr [] g Hg) as Hc.
  assert (Ht : edges_touch (fun n => In n (map r_id rows)) g).
  { apply (@edges_touch_add_rows _ f rows) with (g := []); [| |exact Hg].
    - apply Forall_forall. intros r0 H0. now apply in_map.
    - intros k nd []. }
  assert (Hnot : forall r0, In r0 rows -> ~ In (r_category r0) (map r_id rows)).
  { intros r0 H0 Hin. apply in_map_iff in Hin. destruct Hin as (r1 & E & H1).
    destruct (Hapart r1 r0 H1 H0) as [Hx _]. congruence. }
  unfold category_score. apply String.eqb_neq in Hne. rewrite Hne.
  unfold neighbors. unfold has_node, Dict.mem in Hc.
  destruct (Dict.get (r_category r) g) as [nd|] eqn:E; [|discriminate].
  cbn [bind]. rewrite similar_loop_spec.
  destruct (str_in (r_category r') (Dict.keys (n_adj nd))) eqn:Es; [|reflexivity].
  apply str_in_In in Es.
  destruct (Ht _ _ (dict_get_In _ _ E) _ Es) as [H|H]; exfalso.
  - exact (Hnot r Hr H).
  - exact (Hnot r' Hr' H).
Qed.

(** ** The explanation *)

Lemma explainRules_value (g : Graph) (req cand rb rc cb cc : string)
    (rp cp : float) (rs cs : bool) (rt ct requiredTags : list string) :
  nodes_get g req = Ok (product_attrs rb rc rp rs rt) ->
  nodes_get g cand = Ok (product_attrs cb cc cp cs ct) ->
  explainRules g req cand requiredTags =
  Ok ([category_label rc cc]
      ++ (if forallb (fun t => str_in t ct) requiredTags
          then ["All tags matched"] else [])
      ++ (if PrimFloat.ltb cp rp then ["Cheaper than original"] else [])
      ++ [brand_label cb rb]).
Proof.
  intros Hr Hc. unfold explainRules. rewrite Hr, Hc.
  cbn [bind attr product_attrs a_category a_brand a_price].
  rewrite (@all_tags_in_spec _ ct) by reflexivity. cbn [bind].
  unfold category_label, brand_label.
  destruct (String.eqb rc cc), (forallb (fun t => str_in t ct) requiredTags),
    (PrimFloat.ltb cp rp), (String.eqb cb rb); reflexivity.
Qed.

(** C4 (amended): on two product nodes [explainRules] returns between 2 and
    4 entries in fixed order: the category label, then ["All tags matched"]
    exactly when every required tag is one of the candidate's tags, then
    ["Cheaper than original"] exactly when the candidate's price is strictly
    lower, then the brand label. *)
Theorem explainRules_entries (g : Graph) (req cand rb rc cb cc : string)
    (rp cp : float) (rs cs : bool) (rt ct requiredTags : list string) :
  nodes_get g req = Ok (product_attrs rb rc rp rs rt) ->
  nodes_get g cand = Ok (product_attrs cb cc cp cs ct) ->
  exists rules,
    explainRules g req cand requiredTags = Ok rules /\
    rules =
      [category_label rc cc]
      ++ (if forallb (fun t => str_in t ct) requiredTags
          then ["All tags matched"] else [])
      ++ (if PrimFloat.ltb cp rp then ["Cheaper than original"] else [])
      ++ [brand_label cb rb] /\
    2 <= length rules <= 4.
Proof.
  intros Hr Hc. eexists. split; [|split; [reflexivity|]].
  - now apply explainRules_value with (1 := Hr) (2 := Hc).
  - destruct (forallb (fun t => str_in t ct) requiredTags),
      (PrimFloat.ltb cp rp); simpl; lia.
Qed.

(** ** The finder: the two short cuts *)

Lemma has_node_nodes_get (g : Graph) (n : string) (a : Attrs) :
  nodes_get g n = Ok a -> has_node n g = true.
Proof.
  unfold nodes_get, has_node, Dict.mem. now destruct (Dict.get n g).
Qed.

(** C3 (amended): [findAlternatives] returns the empty list when the
    requested id is not a node, and on an in-stock product it returns,
    without traversal, filtering, scoring or ranking, the one four-component
    tuple [("EXACT_MATCH", id, 999, ["product_in_stock"])]. *)
Theorem findAlternatives_short_cuts (g : Graph) (req : string)
    (maxPrice : float) (requiredTags : list string)
    (preferredBrand : option string) :
  (has_node req g = false ->
   findAlternatives g req maxPrice requiredTags preferredBrand = Some (Ok [])) /\
  (forall a, nodes_get g req = Ok a -> a_stock a = Some true ->
   findAlternatives g req maxPrice requiredTags preferredBrand =
   Some (Ok [Tuple4 "EXACT_MATCH" req 999 ["product_in_stock"]])).
Proof.
  split.
  - intros H. unfold findAlternatives. now rewrite H.
  - intros a Ha Hs. unfold findAlternatives.
    rewrite (has_node_nodes_get g req Ha), Ha. cbn [negb bind].
    now rewrite Hs.
Qed.

(** ** The finder: ranking *)

Lemma category_score_returns (g : Graph) (rc cc : string) :
  has_node rc g = true -> exists z, category_score g rc cc 0 = Ok z.
Proof.
  intros H. unfold category_score, neighbors. unfold has_node, Dict.mem in H.
  destruct (String.eqb rc cc); [eauto|].
  destruct (Dict.get rc g); [|discriminate]. cbn [bind]. eauto.
Qed.

Lemma collect_valid_spec (g : Graph) (req rb rc : string) (rp : float)
    (rs : bool) (rt : list string) (maxPrice : float)
    (requiredTags : list string) (preferredBrand : option string) :
  products_ok g = true ->
  nodes_get g req = Ok (product_attrs rb rc rp rs rt) ->
  has_node rc g = true ->
  forall cands acc,
    Forall (fun p => exists a, nodes_get g p = Ok a /\ is_product a = true) cands ->
    exists valid,
      collect_valid g req maxPrice requiredTags preferredBrand cands acc
      = Ok (acc ++ valid) /\
      map entry_id valid = filter (passes g maxPrice requiredTags preferredBrand) cands /\
      Forall (fun x => scoreCandidate g req (entry_id x) = Ok (entry_score x) /\
                       explainRules g req (entry_id x) requiredTags
                       = Ok (entry_rules x)) valid.
Proof.
  intros Hok Hr Hrc. induction cands as [|p cands IH]; intros acc Hall.
  - exists []. simpl. rewrite app_nil_r. auto.
  - inversion Hall as [|? ? [a [Ha Hp]] Hall']; subst.
    destruct (product_node_attrs g p Hok Ha Hp) as (b & c & pr & st & tg & -> & Hc).
    cbn [collect_valid filter]. unfold passes at 1.
    rewrite (checkConstraints_value g p maxPrice requiredTags preferredBrand Ha).
    cbn [bind].
    destruct (st && negb (PrimFloat.ltb maxPrice pr)
              && forallb (fun t => str_in t tg) requiredTags
              && negb (brand_rejects b preferredBrand)).
    + destruct (category_score_returns g rc c Hrc) as [z Hz].
      rewrite (scoreCandidate_value g req p Hr Ha Hz). cbn [bind].
      pose proof (explainRules_value g req p requiredTags Hr Ha) as Hrules.
      rewrite Hrules. cbn [bind].
      match goal with
      | |- context [collect_valid _ _ _ _ _ _ (acc ++ [?e])] =>
          destruct (IH (acc ++ [e]) Hall') as (valid & Hv & Hids & Hsc)
      end.
      eexists (_ :: valid). split; [|split].
      * rewrite Hv, <- app_assoc. reflexivity.
      * simpl. now rewrite Hids.
      * constructor; [|exact Hsc]. simpl. split; [|exact Hrules].
        now apply scoreCandidate_value with (1 := Hr) (2 := Ha).
    + destruct (IH acc Hall') as (valid & Hv & Hids & Hsc). now exists valid.
Qed.

Lemma insert_desc_perm (x : Entry) (l : list Entry) :
  Permutation (insert_desc x l) (x :: l).
Proof.
  induction l as [|y l IH]; simpl; [reflexivity|].
  destruct (entry_score y <=? entry_score x)%Z; [reflexivity|].
  rewrite IH. apply perm_swap.
Qed.

Lemma sort_desc_perm (l : list Entry) : Permutation (sort_desc l) l.
Proof.
  induction l as [|x l IH]; simpl; [constructor|].
  rewrite insert_desc_perm. now constructor.
Qed.

Lemma insert_desc_sorted (x : Entry) (l : list Entry) :
  StronglySorted desc l -> StronglySorted desc (insert_desc x l).
Proof.
  induction l as [|y l IH]; intros Hs; simpl.
  - repeat constructor.
  - inversion Hs as [|? ? Hs' Hall]; subst.
    destruct (entry_score y <=? entry_score x)%Z eqn:E.
    + apply Z.leb_le in E. constructor; [exact Hs|]. constructor; [exact E|].
      eapply Forall_impl; [|exact Hall]. unfold desc. intros z Hz. lia.
    + apply Z.leb_gt in E. constructor; [now apply IH|].
      apply (Permutation_Forall (x := x :: l)).
      * symmetry. apply insert_desc_perm.
      * constructor; [unfold desc; lia | exact Hall].
Qed.

Lemma sort_desc_sorted (l : list Entry) : StronglySorted desc (sort_desc l).
Proof.
  induction l as [|x l IH]; simpl; [constructor | now apply insert_desc_sorted].
Qed.

Lemma insert_desc_stable (s : Z) (x : Entry) (l : list Entry) :
  filter (same_score s) (insert_desc x l) = filter (same_score s) (x :: l).
Proof.
  induction l as [|y l IH]; [reflexivity|].
  cbn [insert_desc]. destruct (entry_score y <=? entry_score x)%Z eqn:E;
    [reflexivity|].
  apply Z.leb_gt in E. cbn [filter] in *. rewrite IH. unfold same_score.
  destruct (entry_score x =? s)%Z eqn:Ex, (entry_score y =? s)%Z eqn:Ey;
    try reflexivity.
  apply Z.eqb_eq in Ex, Ey. lia.
Qed.

(** Entries of equal score keep their order. *)
Lemma sort_desc_stable (s : Z) (l : list Entry) :
  filter (same_score s) (sort_desc l) = filter (same_score s) l.
Proof.
  induction l as [|x l IH]; [reflexivity|].
  cbn [sort_desc fold_right]. fold (sort_desc l).
  rewrite insert_desc_stable. cbn [filter]. now rewrite IH.
Qed.

(** A stable descending sort has one possible result. *)
Lemma stable_sort_unique (l1 l2 : list Entry) :
  StronglySorted desc l1 ->
  StronglySorted desc l2 ->
  (forall s, filter (same_score s) l1 = filter (same_score s) l2) ->
  l1 = l2.
Proof.
  revert l2. induction l1 as [|x l1 IH]; intros l2 H1 H2 Hf.
  - destruct l2 as [|y l2]; [reflexivity|].
    specialize (Hf (entry_score y)). cbn [filter] in Hf. unfold same_score in Hf.
    rewrite Z.eqb_refl in Hf. discriminate.
  - destruct l2 as [|y l2].
    + specialize (Hf (entry_score x)). cbn [filter] in Hf. unfold same_score in Hf.
      rewrite Z.eqb_refl in Hf. discriminate.
    + inversion H1 as [|? ? H1' A1]; inversion H2 as [|? ? H2' A2]; subst.
      assert (Hin : forall (a : Entry) (la lb : list Entry),
                 (forall s, filter (same_score s) la = filter (same_score s) lb) ->
                 In a la -> exists b, In b lb /\ entry_score b = entry_score a).
      { intros a la lb Hfab Ha.
        assert (Hia : In a (filter (same_score (entry_score a)) la)).
        { apply filter_In. split; [exact Ha|]. unfold same_score. apply Z.eqb_refl. }
        rewrite Hfab in Hia. apply filter_In in Hia. destruct Hia as [Hb _].
        exists a. auto. }
      assert (Hxy : entry_score x = entry_score y).
      { destruct (Hin x (x :: l1) (y :: l2) Hf (or_introl eq_refl)) as (b & Hb & Eb).
        destruct (Hin y (y :: l2) (x :: l1) (fun s => eq_sym (Hf s)) (or_introl eq_refl))
          as (c & Hc & Ec).
        rewrite Forall_forall in A1, A2. unfold desc in *.
        assert (entry_score x <= entry_score y)%Z.
        { destruct Hb as [<-|Hb]; [lia|]. specialize (A2 _ Hb). lia. }
        assert (entry_score y <= entry_score x)%Z.
        { destruct Hc as [<-|Hc]; [lia|]. specialize (A1 _ Hc). lia. }
        lia. }
      pose proof (Hf (entry_score x)) as Hh. cbn [filter] in Hh.
      assert (Ex : same_score (entry_score x) x = true)
        by (unfold same_score; apply Z.eqb_refl).
      assert (Ey : same_score (entry_score x) y = true)
        by (unfold same_score; rewrite Hxy; apply Z.eqb_refl).
      rewrite Ex, Ey in Hh. injection Hh as -> _. f_equal. apply IH; [exact H1' | exact H2' |].
      intros s. specialize (Hf s). cbn [filter] in Hf.
      destruct (same_score s y); [now injection Hf | exact Hf].
Qed.

(** C8: for an out-of-stock product of a well-formed graph,
    [findAlternatives] returns the first three entries of the stable
    descending sort of the candidates that passed the filter: the sorted
    list is a permutation of the survivors taken in breadth-first order,
    its scores never increase, and entries of equal score keep their
    discovery order. *)
Theorem findAlternatives_ranking (g : Graph) (req rb rc : string) (rp : float)
    (rt : list string) (maxPrice : float) (requiredTags : list string)
    (preferredBrand : option string) :
  graph_ok g = true ->
  nodes_get g req = Ok (product_attrs rb rc rp false rt) ->
  exists cands valid,
    bfsSearch g req = Some (Ok cands) /\
    collect_valid g req maxPrice requiredTags preferredBrand cands [] = Ok valid /\
    map entry_id valid = filter (passes g maxPrice requiredTags preferredBrand) cands /\
    Forall (fun x => scoreCandidate g req (entry_id x) = Ok (entry_score x) /\
                     explainRules g req (entry_id x) requiredTags
                     = Ok (entry_rules x)) valid /\
    findAlternatives g req maxPrice requiredTags preferredBrand
    = Some (Ok (map to_item (firstn 3 (sort_desc valid)))) /\
    Permutation (sort_desc valid) valid /\
    StronglySorted desc (sort_desc valid) /\
    (forall s, filter (same_score s) (sort_desc valid) = filter (same_score s) valid) /\
    length (firstn 3 (sort_desc valid)) <= 3.
Proof.
  intros Hok Hr. unfold graph_ok in Hok. apply andb_true_iff in Hok.
  destruct Hok as [Hadj Hprod].
  pose proof (has_node_nodes_get g req Hr) as Hreq.
  destruct (bfsSearch_returns g req Hadj Hreq) as (cands & Hbfs & _ & Hall).
  destruct (product_node_attrs g req Hprod Hr eq_refl)
    as (b & c & pr & st & tg & Heq & Hc).
  injection Heq as <- <- <- <- <-.
  destruct (@collect_valid_spec g req rb rc rp false rt maxPrice requiredTags
              preferredBrand Hprod Hr Hc cands [])
    as (valid & Hv & Hids & Hsc).
  { eapply Forall_impl; [|exact Hall]. simpl. intros p (_ & _ & H). exact H. }
  simpl in Hv. exists cands, valid.
  repeat split; try assumption.
  - unfold findAlternatives. rewrite Hreq, Hr. cbn [negb bind attr product_attrs a_stock].
    rewrite Hbfs, Hv. reflexivity.
  - apply sort_desc_perm.
  - apply sort_desc_sorted.
  - intros s. apply sort_desc_stable.
  - apply firstn_le_length.
Qed.

(** ** The scenario *)

(** C1: on the graph built from the records A, B and C,
    [findAlternatives(graph, "A", 100, ["running"], None)] returns B first,
    with score 5 and the four rules, and C second, with score 3. *)
Theorem shoes_scenario (py_float : string -> option float) :
  py_float "50" = Some 50%float ->
  py_float "40" = Some 40%float ->
  py_float "60" = Some 60%float ->
  exists g,
    createGraph py_float shoeRows = Ok g /\
    findAlternatives g "A" 100%float ["running"] None =
    Some (Ok [Tuple3 "B" 5 ["Same Category"; "All tags matched";
                            "Cheaper than original"; "Same brand"];
              Tuple3 "C" 3 ["Same Category"; "All tags matched";
                            "Different brand"]]).
Proof.
  intros H50 H40 H60. exists shoeGraph. split.
  - unfold createGraph.
    rewrite (@add_rows_ext py_float float_of_digits shoeRows).
    + vm_compute. reflexivity.
    + repeat constructor; simpl; [rewrite H50 | rewrite H40 | rewrite H60];
        vm_compute; reflexivity.
  - vm_compute. reflexivity.
Qed.

(** ** Where the code departs from the stated behaviour *)

(** C2, as stated, fails: in the catalogue where P is listed under "boots"
    and again under "sandals", the two category nodes are linked through the
    shared product P, they have no direct edge, and the category dimension
    of the score of P for Q is 0. *)
Lemma shared_product_scores_zero :
  nodes_get twinGraph "Q" = Ok (product_attrs "X" "boots" 50%float false ["leather"]) /\
  nodes_get twinGraph "P" = Ok (product_attrs "Y" "sandals" 60%float true ["leather"]) /\
  linked_through_product twinGraph "boots" "sandals" = true /\
  neighbors twinGraph "boots" = Ok ["P"; "Q"] /\
  category_score twinGraph "boots" "sandals" 0 = Ok 0%Z /\
  scoreCandidate twinGraph "Q" "P" = Ok 0%Z.
Proof. vm_compute. repeat split; reflexivity. Qed.

(** C3, as stated, fails: the tuple returned for an in-stock product has
    four components, not three. *)
Lemma in_stock_result_not_a_triple :
  exists it,
    findAlternatives shoeGraph "B" 100%float [] None = Some (Ok [it]) /\
    arity it = 4 /\ arity it <> 3.
Proof.
  exists (Tuple4 "EXACT_MATCH" "B" 999 ["product_in_stock"]).
  split; [vm_compute; reflexivity|]. split; [reflexivity | discriminate].
Qed.

(** C4, as stated, fails: with a required tag C lacks, and C dearer than
    A, the explanation has two entries. *)
Lemma explanation_of_two_entries :
  exists rules,
    explainRules shoeGraph "A" "C" ["light"] = Ok rules /\
    rules = ["Same Category"; "Different brand"] /\
    ~ (length rules = 3 \/ length rules = 4).
Proof.
  eexists. split; [vm_compute; reflexivity|]. split; [reflexivity|].
  simpl. intros [H|H]; discriminate.
Qed.

(** C5: the builder keeps the tokens of the tags field as they are.  For
    the field "running; light;" the product's tags are "running", " light"
    (with its blank) and the empty string; the empty string becomes a tag
    node with a HAS TAG edge; and the same text typed as required tags,
    which the search form trims and filters, rejects the product. *)
Theorem createGraph_keeps_raw_tags :
  createGraph float_of_digits rawTagRows = Ok rawTagGraph /\
  nodes_get rawTagGraph "B"
  = Ok (product_attrs "X" "shoes" 40%float true ["running"; " light"; ""]) /\
  nodes_get rawTagGraph "" = Ok (type_attrs "tag") /\
  Dict.get "B" rawTagGraph
  = Some (mkNode (product_attrs "X" "shoes" 40%float true ["running"; " light"; ""])
            [("shoes", "IS A"); ("running", "HAS TAG"); (" light", "HAS TAG");
             ("", "HAS TAG")]) /\
  parse_required_tags "running; light;" = ["running"; "light"] /\
  checkConstraints rawTagGraph "B" 100%float
    (parse_required_tags "running; light;") None = Ok false.
Proof. vm_compute. repeat split; reflexivity. Qed.

(** C6, as stated, fails: a record whose stock field is "maybe" is built
    without error, as an out-of-stock product. *)
Lemma odd_stock_token_accepted :
  lower "maybe" <> "true" /\ lower "maybe" <> "false" /\
  exists g,
    createGraph float_of_digits oddStockRows = Ok g /\
    nodes_get g "A" = Ok (product_attrs "X" "shoes" 50%float false ["running"]).
Proof.
  split; [discriminate|]. split; [discriminate|].
  eexists. split; vm_compute; reflexivity.
Qed.

(** C9, as stated, fails: after the catalogue that lists P twice, the
    product node P has two IS A edges. *)
Lemma repeated_id_two_is_a_edges :
  exists g nd,
    createGraph float_of_digits twinRows = Ok g /\
    Dict.get "P" g = Some nd /\
    is_product (n_attrs nd) = true /\
    is_a_edges nd = [("boots", "IS A"); ("sandals", "IS A")].
Proof.
  exists twinGraph. eexists.
  split; [vm_compute; reflexivity|].
  split; [vm_compute; reflexivity|].
  split; vm_compute; reflexivity.
Qed.

(** ** More on the traversal *)

Lemma bfs_loop_reach (fuel : nat) (g : Graph) (s : string) :
  forall visited queue pl res,
    bfs_reach_inv g s visited queue pl ->
    bfs_loop fuel g s visited queue pl = Some (Ok res) ->
    exists visited', bfs_reach_inv g s visited' [] res.
Proof.
  induction fuel as [|fuel IH]; intros visited queue pl res Hinv; [discriminate|].
  cbn [bfs_loop]. destruct queue as [|node queue].
  - intros [= <-]. now exists visited.
  - destruct Hinv as (H1 & H2 & H3 & H4).
    destruct (str_in node visited) eqn:Hv.
    + apply str_in_In in Hv. apply IH. split; [|split; [|split]].
      * intros x [Hx|Hx]; apply H1; [now left | right; now right].
      * intros n nd m Hn Hg Hm.
        destruct (H2 n nd m Hn Hg Hm) as [H|[<-|H]]; auto.
      * exact H3.
      * destruct H4 as [H|[<-|H]]; auto.
    + apply str_in_not_In in Hv. unfold nodes_get, neighbors.
      destruct (Dict.get node g) as [nd|] eqn:Hget; [|discriminate].
      apply IH. split; [|split; [|split]].
      * intros x [[<-|Hx]|Hx].
        -- apply H1. right. now left.
        -- apply H1. now left.
        -- apply in_app_iff in Hx. destruct Hx as [Hx|Hx].
           ++ apply H1. right. now right.
           ++ apply filter_In in Hx. destruct Hx as [Hx _].
              eapply reach_step; [apply H1; right; now left | exact Hget | exact Hx].
      * intros n nd0 m [<-|Hn] Hg Hm.
        -- rewrite Hget in Hg. injection Hg as <-.
           destruct (str_in m (node :: visited)) eqn:Em.
           ++ left. now apply str_in_In.
           ++ right. apply in_app_iff. right. apply filter_In.
              split; [exact Hm | now rewrite Em].
        -- destruct (H2 n nd0 m Hn Hg Hm) as [H|[<-|H]].
           ++ left. now right.
           ++ left. now left.
           ++ right. apply in_app_iff. now left.
      * intros p.
        assert (Hpa : product_at g node = is_product (n_attrs nd))
          by (unfold product_at; now rewrite Hget).
        destruct (negb (String.eqb node s) && is_product (n_attrs nd)) eqn:Hc.
        -- apply andb_true_iff in Hc. destruct Hc as [Hns Hp].
           apply negb_true_iff, String.eqb_neq in Hns.
           rewrite in_app_iff, H3. simpl. split.
           ++ intros [(Hp' & Hs & Hpr)|[<-|[]]]; [tauto|].
              split; [now left|]. split; [exact Hns | congruence].
           ++ intros ([<-|Hp'] & Hs & Hpr); [right; now left | left; auto].
        -- rewrite H3. split.
           ++ intros (Hp & Hs & Hpr). split; [now right | auto].
           ++ intros ([<-|Hp] & Hs & Hpr); [exfalso | auto].
              apply String.eqb_neq in Hs. rewrite Hs, <- Hpa, Hpr in Hc.
              discriminate.
      * destruct H4 as [H|[<-|H]];
          [left; now right | left; now left | right; apply in_app_iff; now left].
Qed.

(** X1: the loop of [bfsSearch] ends on every graph and every start, also
    on a malformed graph or an unknown start: within [bfs_fuel] iterations
    it has returned or raised, and more iterations change nothing. *)
Theorem bfsSearch_terminates (g : Graph) (s : string) :
  exists r, bfsSearch g s = Some r /\
    forall fuel, bfs_fuel g <= fuel -> bfs_loop fuel g s [] [s] [] = Some r.
Proof.
  unfold bfsSearch.
  destruct (bfs_loop (bfs_fuel g) g s [] [s] []) as [r|] eqn:E.
  - exists r. split; [reflexivity|]. intros fuel Hle.
    now apply bfs_loop_more_fuel with (1 := E).
  - exfalso. eapply bfs_loop_fuel; [|exact E].
    rewrite bfs_weight_nil. unfold bfs_fuel. simpl. lia.
Qed.

(** X2: [bfsSearch] from an id that is not a node raises [KeyError] for
    that id (at [graph.nodes[node]], before any neighbour is read). *)
Theorem bfsSearch_unknown_start (g : Graph) (s : string) :
  has_node s g = false ->
  bfsSearch g s = Some (Raise (KeyError s)).
Proof.
  intros H. unfold bfsSearch, bfs_fuel. cbn [bfs_loop str_in existsb].
  unfold nodes_get. unfold has_node, Dict.mem in H.
  now destruct (Dict.get s g).
Qed.

Lemma bfsSearch_reach_spec (g : Graph) (s : string) :
  adj_closed g = true ->
  has_node s g = true ->
  exists l,
    bfsSearch g s = Some (Ok l) /\
    forall p, In p l <-> (p <> s /\ reachable g s p /\ product_at g p = true).
Proof.
  intros Hc Hs. destruct (bfsSearch_returns g s Hc Hs) as (l & Hl & _).
  exists l. split; [exact Hl|].
  destruct (@bfs_loop_reach (bfs_fuel g) g s [] [s] [] l) as (v & H1 & H2 & H3 & H4).
  - split; [|split; [|split]].
    + intros x [[]|[<-|[]]]. constructor.
    + intros n nd m [].
    + intros p. simpl. tauto.
    + right. now left.
  - exact Hl.
  - assert (Hclosed : forall p, reachable g s p -> In p v).
    { induction 1 as [|n m nd _ IH Hg Hm].
      - destruct H4 as [H|[]]. exact H.
      - destruct (H2 n nd m IH Hg Hm) as [H|[]]. exact H. }
    intros p. rewrite H3. split.
    + intros (Hp & Hne & Hpr). repeat split; auto.
    + intros (Hne & Hr & Hpr). repeat split; auto.
Qed.

(** X3: on a graph whose adjacency only names nodes, the list [bfsSearch]
    returns holds exactly the product nodes other than the start that can
    be reached from the start along edges; categories, tags and the start
    itself are never in it, and no reachable product is missed. *)
Theorem bfsSearch_reachable_products (g : Graph) (s : string) :
  adj_closed g = true ->
  has_node s g = true ->
  exists l,
    bfsSearch g s = Some (Ok l) /\
    forall p, In p l <-> (p <> s /\ reachable g s p /\ product_at g p = true).
Proof.
  intros Hc Hs. exact (bfsSearch_reach_spec g s Hc Hs).
Qed.

(** ** More on the scorer *)

Lemma scoreCandidate_bounds (g : Graph) (req cand rb rc cb cc : string)
    (rp cp : float) (rs cs : bool) (rt ct : list string) :
  nodes_get g req = Ok (product_attrs rb rc rp rs rt) ->
  nodes_get g cand = Ok (product_attrs cb cc cp cs ct) ->
  has_node rc g = true ->
  exists z,
    scoreCandidate g req cand = Ok z /\ (0 <= z <= 5)%Z /\
    (rc = cc -> (3 <= z)%Z) /\ (rc <> cc -> (z <= 3)%Z) /\
    (z = 5%Z <-> rc = cc /\ rb = cb /\ PrimFloat.ltb cp rp = true).
Proof.
  intros Hr Hc Hn.
  assert (Hcat : exists c, category_score g rc cc 0 = Ok c /\
            ((rc = cc /\ c = 3%Z) \/ (rc <> cc /\ (c = 0%Z \/ c = 1%Z)))).
  { unfold category_score. destruct (String.eqb rc cc) eqn:E.
    - apply String.eqb_eq in E. exists 3%Z. auto.
    - apply String.eqb_neq in E. unfold neighbors.
      unfold has_node, Dict.mem in Hn.
      destruct (Dict.get rc g) as [nd|]; [|discriminate]. cbn [bind].
      rewrite similar_loop_spec. eexists. split; [reflexivity|]. right.
      split; [exact E|]. destruct (str_in cc (Dict.keys (n_adj nd))); auto. }
  destruct Hcat as (c & Hc0 & Hcases).
  rewrite (scoreCandidate_value g req cand Hr Hc Hc0). eexists.
  split; [reflexivity|].
  assert (Hb : String.eqb rb cb = true <-> rb = cb) by apply String.eqb_eq.
  destruct (String.eqb rb cb), (PrimFloat.ltb cp rp);
    destruct Hcases as [[He ->]|[He [-> | ->]]];
    repeat split; intros; try lia; try tauto; try discriminate;
    try (exfalso; destruct Hb as [Hb1 Hb2]; intuition discriminate).
Qed.

(** X4: on two product nodes, the requested product's category being a
    node, [scoreCandidate] returns a score between 0 and 5; it is at least 3
    when the categories are equal and at most 3 when they differ; and it is
    5 exactly when the category and the brand are the same and the
    candidate is strictly cheaper. *)
Theorem scoreCandidate_range (g : Graph) (req cand rb rc cb cc : string)
    (rp cp : float) (rs cs : bool) (rt ct : list string) :
  nodes_get g req = Ok (product_attrs rb rc rp rs rt) ->
  nodes_get g cand = Ok (product_attrs cb cc cp cs ct) ->
  has_node rc g = true ->
  exists z,
    scoreCandidate g req cand = Ok z /\ (0 <= z <= 5)%Z /\
    (rc = cc -> (3 <= z)%Z) /\ (rc <> cc -> (z <= 3)%Z) /\
    (z = 5%Z <-> rc = cc /\ rb = cb /\ PrimFloat.ltb cp rp = true).
Proof.
  intros Hr Hc Hn. exact (scoreCandidate_bounds g req cand Hr Hc Hn).
Qed.

(** ** More on the finder *)

Lemma finder_pipeline (g : Graph) (req rb rc : string) (rp : float)
    (rt : list string) (maxPrice : float) (requiredTags : list string)
    (preferredBrand : option string) :
  graph_ok g = true ->
  nodes_get g req = Ok (product_attrs rb rc rp false rt) ->
  exists cands valid,
    bfsSearch g req = Some (Ok cands) /\
    bfs_inv g req cands cands /\
    products_ok g = true /\
    has_node rc g = true /\
    collect_valid g req maxPrice requiredTags preferredBrand cands [] = Ok valid /\
    map entry_id valid = filter (passes g maxPrice requiredTags preferredBrand) cands /\
    Forall (fun x => scoreCandidate g req (entry_id x) = Ok (entry_score x) /\
                     explainRules g req (entry_id x) requiredTags
                     = Ok (entry_rules x)) valid /\
    findAlternatives g req maxPrice requiredTags preferredBrand
    = Some (Ok (map to_item (firstn 3 (sort_desc valid)))).
Proof.
  intros Hok Hr. unfold graph_ok in Hok. apply andb_true_iff in Hok.
  destruct Hok as [Hadj Hprod].
  pose proof (has_node_nodes_get g req Hr) as Hreq.
  destruct (bfsSearch_returns g req Hadj Hreq) as (cands & Hbfs & Hinv).
  destruct (product_node_attrs g req Hprod Hr eq_refl)
    as (b & c & pr & st & tg & Heq & Hc).
  injection Heq as <- <- <- <- <-.
  destruct (@collect_valid_spec g req rb rc rp false rt maxPrice requiredTags
              preferredBrand Hprod Hr Hc cands [])
    as (valid & Hv & Hids & Hsc).
  { destruct Hinv as [_ Hall]. eapply Forall_impl; [|exact Hall].
    simpl. intros p (_ & _ & H). exact H. }
  simpl in Hv. exists cands, valid. repeat split; try assumption.
  - apply Hinv.
  - apply Hinv.
  - unfold findAlternatives. rewrite Hreq, Hr.
    cbn [negb bind attr product_attrs a_stock]. rewrite Hbfs, Hv. reflexivity.
Qed.

Lemma NoDup_firstn (A : Type) (n : nat) (l : list A) :
  NoDup l -> NoDup (firstn n l).
Proof.
  intros H. rewrite <- (firstn_skipn n l) in H.
  now apply NoDup_app_remove_r in H.
Qed.

Lemma In_firstn (A : Type) (n : nat) (l : list A) (x : A) :
  In x (firstn n l) -> In x l.
Proof.
  intros H. rewrite <- (firstn_skipn n l). apply in_or_app. now left.
Qed.

Lemma sorted_app_desc (l1 l2 : list Entry) :
  StronglySorted desc (l1 ++ l2) ->
  forall y x, In y l1 -> In x l2 -> desc y x.
Proof.
  induction l1 as [|a l1 IH]; intros Hs y x Hy Hx; [destruct Hy|].
  simpl in Hs. inversion Hs as [|? ? Hs' Hall]; subst.
  destruct Hy as [<-|Hy].
  - rewrite Forall_forall in Hall. apply Hall, in_or_app. now right.
  - now apply IH.
Qed.

(** X5: for an out-of-stock product of a well-formed graph,
    [findAlternatives] returns at most three tuples with distinct ids; each
    is a triple [(id, score, rules)] whose id is another product, in stock,
    with a price not above [maxPrice], accepted by [checkConstraints], and
    whose score (between 0 and 5) and rules are those of [scoreCandidate]
    and [explainRules]. *)
Theorem findAlternatives_sound (g : Graph) (req rb rc : string) (rp : float)
    (rt : list string) (maxPrice : float) (requiredTags : list string)
    (preferredBrand : option string) :
  graph_ok g = true ->
  nodes_get g req = Ok (product_attrs rb rc rp false rt) ->
  exists items,
    findAlternatives g req maxPrice requiredTags preferredBrand = Some (Ok items) /\
    length items <= 3 /\
    NoDup (map item_id items) /\
    Forall (fun it => exists pid score rules b c pr tg,
              it = Tuple3 pid score rules /\
              pid <> req /\
              nodes_get g pid = Ok (product_attrs b c pr true tg) /\
              PrimFloat.ltb maxPrice pr = false /\
              checkConstraints g pid maxPrice requiredTags preferredBrand = Ok true /\
              scoreCandidate g req pid = Ok score /\
              (0 <= score <= 5)%Z /\
              explainRules g req pid requiredTags = Ok rules) items.
Proof.
  intros Hok Hr.
  destruct (@finder_pipeline g req rb rc rp rt maxPrice requiredTags
              preferredBrand Hok Hr)
    as (cands & valid & _ & [Hnd Hall] & Hprod & Hrc & _ & Hids & Hsc & Hfind).
  exists (map to_item (firstn 3 (sort_desc valid))).
  split; [exact Hfind|]. split; [|split].
  - rewrite length_map. apply firstn_le_length.
  - rewrite map_map. change (fun x => item_id (to_item x)) with entry_id.
    rewrite <- firstn_map. apply NoDup_firstn.
    apply (Permutation_NoDup (l := map entry_id valid)).
    + apply Permutation_map. symmetry. apply sort_desc_perm.
    + rewrite Hids. now apply NoDup_filter.
  - apply Forall_forall. intros it Hit. apply in_map_iff in Hit.
    destruct Hit as (x & <- & Hx). apply In_firstn in Hx.
    apply (Permutation_in _ (sort_desc_perm valid)) in Hx.
    rewrite Forall_forall in Hsc. destruct (Hsc x Hx) as [Hscore Hrules].
    assert (Hid : In (entry_id x) (filter (passes g maxPrice requiredTags preferredBrand) cands)).
    { rewrite <- Hids. now apply in_map. }
    apply filter_In in Hid. destruct Hid as [Hcand Hpass].
    rewrite Forall_forall in Hall.
    destruct (Hall _ Hcand) as (_ & Hne & a & Ha & Hpa).
    destruct (product_node_attrs g (entry_id x) Hprod Ha Hpa)
      as (b & c & pr & st & tg & -> & _).
    unfold passes in Hpass.
    pose proof (checkConstraints_value g (entry_id x) maxPrice requiredTags
                  preferredBrand Ha) as Hcv.
    rewrite Hcv in Hpass.
    destruct st; [|discriminate Hpass]. cbn [andb] in Hpass, Hcv.
    destruct (PrimFloat.ltb maxPrice pr) eqn:Hlt; [discriminate Hpass|].
    cbn [negb andb] in Hpass, Hcv.
    destruct (forallb (fun t => str_in t tg) requiredTags
              && negb (brand_rejects b preferredBrand)) eqn:Hrest;
      [|discriminate Hpass].
    destruct (scoreCandidate_bounds g req (entry_id x) Hr Ha Hrc)
      as (z & Hz & Hrange & _).
    rewrite Hscore in Hz. injection Hz as <-.
    exists (entry_id x), (entry_score x), (entry_rules x), b, c, pr, tg.
    repeat split; auto; lia.
Qed.

(** X6: the three tuples returned are the best: a candidate that passed
    the filter and is left out never has a higher score than one that is
    returned, and when at most three candidates pass the filter all of them
    are returned. *)
Theorem findAlternatives_best (g : Graph) (req rb rc : string) (rp : float)
    (rt : list string) (maxPrice : float) (requiredTags : list string)
    (preferredBrand : option string) :
  graph_ok g = true ->
  nodes_get g req = Ok (product_attrs rb rc rp false rt) ->
  exists cands valid top,
    bfsSearch g req = Some (Ok cands) /\
    collect_valid g req maxPrice requiredTags preferredBrand cands [] = Ok valid /\
    map entry_id valid = filter (passes g maxPrice requiredTags preferredBrand) cands /\
    findAlternatives g req maxPrice requiredTags preferredBrand
    = Some (Ok (map to_item top)) /\
    (forall y, In y top -> In y valid) /\
    (forall x y, In x valid -> ~ In x top -> In y top ->
                 (entry_score x <= entry_score y)%Z) /\
    (length valid <= 3 -> Permutation top valid).
Proof.
  intros Hok Hr.
  destruct (@finder_pipeline g req rb rc rp rt maxPrice requiredTags
              preferredBrand Hok Hr)
    as (cands & valid & Hbfs & _ & _ & _ & Hcol & Hids & _ & Hfind).
  exists cands, valid, (firstn 3 (sort_desc valid)).
  split; [exact Hbfs|]. split; [exact Hcol|]. split; [exact Hids|].
  split; [exact Hfind|]. split; [|split].
  - intros y Hy. apply In_firstn in Hy.
    exact (Permutation_in _ (sort_desc_perm valid) Hy).
  - intros x y Hx Hnx Hy.
    apply (Permutation_in _ (Permutation_sym (sort_desc_perm valid))) in Hx.
    rewrite <- (firstn_skipn 3 (sort_desc valid)) in Hx.
    apply in_app_or in Hx. destruct Hx as [Hx|Hx]; [contradiction|].
    apply (@sorted_app_desc (firstn 3 (sort_desc valid)) (skipn 3 (sort_desc valid)));
      [|exact Hy | exact Hx].
    rewrite firstn_skipn. apply sort_desc_sorted.
  - intros Hlen. rewrite firstn_all2; [apply sort_desc_perm|].
    now rewrite (Permutation_length (sort_desc_perm valid)).
Qed.

(** ** More on the builder: attributes *)

Lemma attrs_at_has (g : Graph) (n : string) :
  has_node n g = true <-> attrs_at g n <> None.
Proof.
  unfold has_node, Dict.mem, attrs_at. destruct (Dict.get n g); simpl;
    split; congruence.
Qed.

Lemma attrs_at_set_adj (a b r n : string) (g : Graph) :
  attrs_at (set_adj a b r g) n = attrs_at g n.
Proof.
  unfold attrs_at. destruct (string_dec n a) as [->|Hne].
  - destruct (Dict.get a g) as [nd|] eqn:E.
    + rewrite (@set_adj_get_same a b r g nd E). reflexivity.
    + unfold set_adj. rewrite E, E. reflexivity.
  - now rewrite set_adj_get_other.
Qed.

Lemma attrs_at_ensure (m n : string) (g : Graph) :
  has_node n g = true -> attrs_at (ensure_node m g) n = attrs_at g n.
Proof.
  intros H. unfold ensure_node. destruct (has_node m g) eqn:E; [reflexivity|].
  unfold attrs_at. rewrite dict_get_set_other; [reflexivity | congruence].
Qed.

Lemma attrs_at_add_edge (a b r n : string) (g : Graph) :
  has_node n g = true -> attrs_at (add_edge a b r g) n = attrs_at g n.
Proof.
  intros H. unfold add_edge. rewrite !attrs_at_set_adj.
  rewrite attrs_at_ensure by now apply ensure_node_mono.
  now apply attrs_at_ensure.
Qed.

Lemma attrs_at_absent_add (m n : string) (a : Attrs) (g : Graph) :
  has_node n g = true ->
  attrs_at (if has_node m g then g else add_node m a g) n = attrs_at g n.
Proof.
  intros H. unfold attrs_at. rewrite absent_add_get; [reflexivity | now right].
Qed.

Lemma attrs_at_add_tag (q t n : string) (g : Graph) :
  has_node n g = true -> attrs_at (add_tag q g t) n = attrs_at g n.
Proof.
  intros H. unfold add_tag.
  rewrite attrs_at_add_edge by now apply absent_add_mono.
  now apply attrs_at_absent_add.
Qed.

Lemma attrs_at_fold_tags (q n : string) (tags : list string) :
  forall g, has_node n g = true ->
            attrs_at (fold_left (add_tag q) tags g) n = attrs_at g n.
Proof.
  induction tags as [|t tags IH]; intros g H; simpl; [reflexivity|].
  rewrite IH by now apply add_tag_mono. now apply attrs_at_add_tag.
Qed.

Lemma attrs_at_add_product_self (q cat b : string) (p : float) (st : bool)
    (tags : list string) (g : Graph) :
  attrs_at (add_product g q cat b p st tags) q
  = Some (product_attrs b cat p st tags).
Proof.
  unfold add_product.
  set (g1 := add_node q (product_attrs b cat p st tags) g).
  assert (P1 : has_node q g1 = true) by apply add_node_has.
  rewrite attrs_at_fold_tags
    by now apply add_edge_mono, absent_add_mono.
  rewrite attrs_at_add_edge by now apply absent_add_mono.
  rewrite attrs_at_absent_add by exact P1.
  unfold attrs_at, g1, add_node.
  destruct (Dict.get q g); now rewrite dict_get_set_same.
Qed.

Lemma attrs_at_add_product_other (n q cat b : string) (p : float) (st : bool)
    (tags : list string) (g : Graph) :
  n <> q -> has_node n g = true ->
  attrs_at (add_product g q cat b p st tags) n = attrs_at g n.
Proof.
  intros Hne Hn. unfold add_product.
  set (g1 := add_node q (product_attrs b cat p st tags) g).
  assert (P1 : has_node n g1 = true) by now apply add_node_mono.
  rewrite attrs_at_fold_tags
    by now apply add_edge_mono, absent_add_mono.
  rewrite attrs_at_add_edge by now apply absent_add_mono.
  rewrite attrs_at_absent_add by exact P1.
  unfold attrs_at, g1. now rewrite add_node_get_other.
Qed.

Lemma attrs_at_add_rows (n : string) (f : string -> option float)
    (rows : list Row) :
  Forall (fun r => r_id r <> n) rows ->
  forall g g', has_node n g = true -> add_rows f g rows = Ok g' ->
               attrs_at g' n = attrs_at g n.
Proof.
  induction 1 as [|r rows Hr _ IH]; intros g g' Hn; cbn [add_rows].
  - now intros [= <-].
  - destruct (add_row f g r) as [g1|] eqn:E; cbn [bind]; [|discriminate].
    destruct (@add_row_inv f g g1 r E) as (p & _ & ->). intros H.
    rewrite (IH _ _ (@add_product_mono n _ _ _ _ _ _ g Hn) H).
    apply attrs_at_add_product_other; [congruence | exact Hn].
Qed.

Lemma last_occurrence (rows : list Row) (p : string) :
  In p (map r_id rows) ->
  exists pre r post,
    rows = pre ++ r :: post /\ r_id r = p /\
    Forall (fun x => r_id x <> p) post.
Proof.
  induction rows as [|a rows IH]; intros Hin; [destruct Hin|].
  destruct (in_dec string_dec p (map r_id rows)) as [Hlater|Hnot].
  - destruct (IH Hlater) as (pre & r & post & -> & Hid & Hpost).
    now exists (a :: pre), r, post.
  - destruct Hin as [Ha|Hin]; [|contradiction].
    exists [], a, rows. repeat split; [exact Ha|].
    apply Forall_forall. intros x Hx Heq. apply Hnot, in_map_iff. now exists x.
Qed.

(** X7: when an id occurs on several records the last one wins: after a
    successful build the node of that id carries the brand, category,
    price, tags and stock flag of the last record with the id, the stock
    flag being [row["stock"].lower() == "true"]. *)
Theorem createGraph_last_record_wins (py_float : string -> option float)
    (pre post : list Row) (r : Row) (g : Graph) :
  Forall (fun x => r_id x <> r_id r) post ->
  createGraph py_float (pre ++ r :: post) = Ok g ->
  exists price,
    py_float (r_price r) = Some price /\
    nodes_get g (r_id r) = Ok (row_attrs r price).
Proof.
  intros Hpost Hg. unfold createGraph in Hg. rewrite add_rows_app in Hg.
  destruct (add_rows py_float [] pre) as [g1|]; cbn [bind] in Hg; [|discriminate].
  cbn [add_rows] in Hg.
  destruct (add_row py_float g1 r) as [g2|] eqn:E2; cbn [bind] in Hg;
    [|discriminate].
  destruct (@add_row_inv py_float g1 g2 r E2) as (price & Hprice & ->).
  exists price. split; [exact Hprice|].
  pose proof (attrs_at_add_product_self (r_id r) (r_category r) (r_brand r)
                price (String.eqb (lower (r_stock r)) "true") (row_tags r) g1)
    as Hself.
  assert (Hn : has_node (r_id r)
                 (add_product g1 (r_id r) (r_category r) (r_brand r) price
                    (String.eqb (lower (r_stock r)) "true") (row_tags r)) = true).
  { apply attrs_at_has. rewrite Hself. discriminate. }
  pose proof (@attrs_at_add_rows (r_id r) py_float post Hpost _ g Hn Hg) as Hkeep.
  rewrite Hself in Hkeep. unfold attrs_at in Hkeep. unfold nodes_get.
  destruct (Dict.get (r_id r) g) as [nd|]; [|discriminate].
  simpl in Hkeep. injection Hkeep as ->. reflexivity.
Qed.

(** Every id of a record is a product node of the built graph. *)
Lemma row_id_is_product (f : string -> option float) (rows : list Row)
    (g : Graph) (r : Row) :
  createGraph f rows = Ok g -> In r rows -> product_at g (r_id r) = true.
Proof.
  intros Hg Hr.
  destruct (@last_occurrence rows (r_id r) (in_map r_id rows r Hr))
    as (pre & r' & post & -> & Hid & Hpost).
  unfold createGraph in Hg. rewrite add_rows_app in Hg.
  destruct (add_rows f [] pre) as [g1|]; cbn [bind] in Hg; [|discriminate].
  cbn [add_rows] in Hg.
  destruct (add_row f g1 r') as [g2|] eqn:E2; cbn [bind] in Hg; [|discriminate].
  destruct (@add_row_inv f g1 g2 r' E2) as (price & _ & ->).
  pose proof (attrs_at_add_product_self (r_id r') (r_category r') (r_brand r')
                price (String.eqb (lower (r_stock r')) "true") (row_tags r') g1)
    as Hself.
  assert (Hn : has_node (r_id r')
                 (add_product g1 (r_id r') (r_category r') (r_brand r') price
                    (String.eqb (lower (r_stock r')) "true") (row_tags r')) = true).
  { apply attrs_at_has. rewrite Hself. discriminate. }
  assert (Hpost' : Forall (fun x => r_id x <> r_id r') post)
    by (eapply Forall_impl; [|exact Hpost]; simpl; congruence).
  pose proof (@attrs_at_add_rows (r_id r') f post Hpost' _ g Hn Hg) as Hkeep.
  rewrite Hself in Hkeep. unfold attrs_at in Hkeep. unfold product_at.
  rewrite <- Hid. destruct (Dict.get (r_id r') g) as [nd|]; [|discriminate].
  simpl in Hkeep. injection Hkeep as ->. reflexivity.
Qed.

Lemma last_record_attrs (f : string -> option float) (pre post : list Row)
    (r : Row) (g0 g : Graph) :
  Forall (fun x => r_id x <> r_id r) post ->
  add_rows f g0 (pre ++ r :: post) = Ok g ->
  exists price,
    f (r_price r) = Some price /\ nodes_get g (r_id r) = Ok (row_attrs r price).
Proof.
  intros Hpost Hg. rewrite add_rows_app in Hg.
  destruct (add_rows f g0 pre) as [g1|]; cbn [bind] in Hg; [|discriminate].
  cbn [add_rows] in Hg.
  destruct (add_row f g1 r) as [g2|] eqn:E2; cbn [bind] in Hg; [|discriminate].
  destruct (@add_row_inv f g1 g2 r E2) as (price & Hprice & ->).
  exists price. split; [exact Hprice|].
  pose proof (attrs_at_add_product_self (r_id r) (r_category r) (r_brand r)
                price (String.eqb (lower (r_stock r)) "true") (row_tags r) g1)
    as Hself.
  assert (Hn : has_node (r_id r)
                 (add_product g1 (r_id r) (r_category r) (r_brand r) price
                    (String.eqb (lower (r_stock r)) "true") (row_tags r)) = true).
  { apply attrs_at_has. rewrite Hself. discriminate. }
  pose proof (@attrs_at_add_rows (r_id r) f post Hpost _ g Hn Hg) as Hkeep.
  rewrite Hself in Hkeep. unfold attrs_at in Hkeep. unfold nodes_get.
  destruct (Dict.get (r_id r) g) as [nd|]; [|discriminate].
  simpl in Hkeep. injection Hkeep as ->. reflexivity.
Qed.

(** C6 (amended): for records read from complete lines, [createGraph]
    aborts, with the [ValueError] of [float], whenever some record's price
    is not numeric.  A stock token that is neither "true" nor "false" is
    no error: when every price is numeric the build completes, whatever
    the stock tokens are, and each record (the last one of its id) is
    stored with the stock flag [row["stock"].lower() == "true"], so any
    other token reads as out of stock. *)
Theorem createGraph_failure (py_float : string -> option float)
    (rows : list Row) :
  (Exists (fun r => py_float (r_price r) = None) rows ->
   createGraph py_float rows = Raise ValueError) /\
  (Forall (numeric py_float) rows ->
   exists g,
     createGraph py_float rows = Ok g /\
     forall pre r post,
       rows = pre ++ r :: post ->
       Forall (fun x => r_id x <> r_id r) post ->
       exists a,
         nodes_get g (r_id r) = Ok a /\
         a_stock a = Some (String.eqb (lower (r_stock r)) "true")).
Proof.
  assert (Hex : Exists (fun r => py_float (r_price r) = None) rows ->
                Forall (numeric py_float) rows -> False).
  { intros He Hf. apply Exists_exists in He. destruct He as (r & Hr & Hn).
    rewrite Forall_forall in Hf. now apply (Hf r Hr). }
  unfold createGraph. split.
  - intros He. destruct (add_rows_total py_float rows []) as [[g' Hg]|H];
      [|exact H].
    exfalso. apply (Hex He). eapply add_rows_returns. exact Hg.
  - intros Hf. destruct (add_rows_total py_float rows []) as [[g Hg]|H].
    + exists g. split; [exact Hg|]. intros pre r post Hrows Hpost.
      rewrite Hrows in Hg.
      destruct (@last_record_attrs py_float pre post r [] g Hpost Hg)
        as (price & _ & Hn).
      exists (row_attrs r price). split; [exact Hn | reflexivity].
    + exfalso. destruct (add_rows_raises _ _ _ H) as [_ He]. now apply Hex.
Qed.

(** ** More on the builder: edges *)

Lemma keys_set_same (V : Type) (k : string) (v : V) (d : Dict.t V) :
  In k (Dict.keys (Dict.set k v d)).
Proof.
  apply dict_mem_keys. unfold Dict.mem. now rewrite dict_get_set_same.
Qed.

Lemma keys_set_mono (V : Type) (k : string) (v : V) (d : Dict.t V) (x : string) :
  In x (Dict.keys d) -> In x (Dict.keys (Dict.set k v d)).
Proof.
  intros H. destruct (string_dec x k) as [->|Hne]; [apply keys_set_same|].
  apply dict_mem_keys. apply dict_mem_keys in H. unfold Dict.mem in *.
  now rewrite dict_get_set_other.
Qed.

Lemma adjacent_set_adj_mono (a b r u v : string) (g : Graph) :
  adjacent g u v -> adjacent (set_adj a b r g) u v.
Proof.
  intros (nd & Hg & Hin). destruct (string_dec u a) as [->|Hne].
  - exists (mkNode (n_attrs nd) (Dict.set b r (n_adj nd))).
    split; [now apply set_adj_get_same|]. cbn [n_adj]. now apply keys_set_mono.
  - exists nd. now rewrite set_adj_get_other.
Qed.

Lemma adjacent_set_adj_new (a b r : string) (g : Graph) :
  has_node a g = true -> adjacent (set_adj a b r g) a b.
Proof.
  intros H. unfold has_node, Dict.mem in H.
  destruct (Dict.get a g) as [nd|] eqn:E; [|discriminate].
  exists (mkNode (n_attrs nd) (Dict.set b r (n_adj nd))).
  split; [now apply set_adj_get_same | apply keys_set_same].
Qed.

Lemma adjacent_ensure_mono (m u v : string) (g : Graph) :
  adjacent g u v -> adjacent (ensure_node m g) u v.
Proof.
  intros (nd & Hg & Hin). unfold ensure_node.
  destruct (has_node m g) eqn:E; [now exists nd|].
  exists nd. split; [|exact Hin]. rewrite dict_get_set_other; [exact Hg|].
  intros ->. unfold has_node, Dict.mem in E. now rewrite Hg in E.
Qed.

Lemma adjacent_add_node_mono (m u v : string) (a : Attrs) (g : Graph) :
  adjacent g u v -> adjacent (add_node m a g) u v.
Proof.
  intros (nd & Hg & Hin). unfold add_node.
  destruct (string_dec u m) as [->|Hne].
  - rewrite Hg. eexists. split; [apply dict_get_set_same | exact Hin].
  - exists nd. split; [|exact Hin].
    destruct (Dict.get m g); now rewrite dict_get_set_other.
Qed.

Lemma adjacent_absent_add_mono (m u v : string) (a : Attrs) (g : Graph) :
  adjacent g u v ->
  adjacent (if has_node m g then g else add_node m a g) u v.
Proof.
  intros H. destruct (has_node m g); [exact H | now apply adjacent_add_node_mono].
Qed.

Lemma adjacent_add_edge_mono (a b r u v : string) (g : Graph) :
  adjacent g u v -> adjacent (add_edge a b r g) u v.
Proof.
  intros H. unfold add_edge.
  now apply adjacent_set_adj_mono, adjacent_set_adj_mono,
    adjacent_ensure_mono, adjacent_ensure_mono.
Qed.

Lemma adjacent_add_edge_new (a b r : string) (g : Graph) :
  adjacent (add_edge a b r g) a b /\ adjacent (add_edge a b r g) b a.
Proof.
  unfold add_edge. split.
  - apply adjacent_set_adj_mono, adjacent_set_adj_new.
    apply ensure_node_mono, ensure_node_has.
  - apply adjacent_set_adj_new. rewrite set_adj_has. apply ensure_node_has.
Qed.

Lemma adjacent_add_tag_mono (q t u v : string) (g : Graph) :
  adjacent g u v -> adjacent (add_tag q g t) u v.
Proof.
  intros H. unfold add_tag.
  now apply adjacent_add_edge_mono, adjacent_absent_add_mono.
Qed.

Lemma adjacent_fold_tags_mono (q u v : string) (tags : list string) :
  forall g, adjacent g u v -> adjacent (fold_left (add_tag q) tags g) u v.
Proof.
  induction tags as [|t tags IH]; intros g H; simpl; [exact H|].
  now apply IH, adjacent_add_tag_mono.
Qed.

Lemma adjacent_fold_tags_new (q t : string) (tags : list string) :
  In t tags ->
  forall g, adjacent (fold_left (add_tag q) tags g) q t /\
            adjacent (fold_left (add_tag q) tags g) t q.
Proof.
  induction tags as [|t0 tags IH]; intros Hin g; [destruct Hin|]. simpl.
  destruct Hin as [->|Hin]; [|now apply IH].
  unfold add_tag at 2 4.
  split; apply adjacent_fold_tags_mono; apply adjacent_add_edge_new.
Qed.

Lemma adjacent_add_product_mono (q cat b u v : string) (p : float) (st : bool)
    (tags : list string) (g : Graph) :
  adjacent g u v -> adjacent (add_product g q cat b p st tags) u v.
Proof.
  intros H. unfold add_product.
  now apply adjacent_fold_tags_mono, adjacent_add_edge_mono,
    adjacent_absent_add_mono, adjacent_add_node_mono.
Qed.

Lemma adjacent_add_product_new (q cat b : string) (p : float) (st : bool)
    (tags : list string) (g : Graph) (x : string) :
  x = cat \/ In x tags ->
  adjacent (add_product g q cat b p st tags) q x /\
  adjacent (add_product g q cat b p st tags) x q.
Proof.
  intros [->|Hin]; unfold add_product.
  - split; apply adjacent_fold_tags_mono; apply adjacent_add_edge_new.
  - now apply adjacent_fold_tags_new.
Qed.

Lemma adjacent_add_rows_mono (f : string -> option float) (u v : string)
    (rows : list Row) :
  forall g g', adjacent g u v -> add_rows f g rows = Ok g' -> adjacent g' u v.
Proof.
  induction rows as [|r rows IH]; intros g g' H; cbn [add_rows].
  - now intros [= <-].
  - destruct (add_row f g r) as [g1|] eqn:E; cbn [bind]; [|discriminate].
    apply IH. destruct (@add_row_inv f g g1 r E) as (p & _ & ->).
    now apply adjacent_add_product_mono.
Qed.

Lemma adjacent_add_rows_new (f : string -> option float) (rows : list Row)
    (r : Row) (x : string) :
  In r rows -> x = r_category r \/ In x (row_tags r) ->
  forall g g', add_rows f g rows = Ok g' ->
    adjacent g' (r_id r) x /\ adjacent g' x (r_id r).
Proof.
  intros Hin Hx. induction rows as [|r0 rows IH]; intros g g'; [destruct Hin|].
  cbn [add_rows]. destruct (add_row f g r0) as [g1|] eqn:E; cbn [bind];
    [|discriminate].
  destruct Hin as [->|Hin]; [|now apply IH].
  destruct (@add_row_inv f g g1 r E) as (p & _ & ->). intros H.
  destruct (@adjacent_add_product_new (r_id r) (r_category r) (r_brand r) p
              (String.eqb (lower (r_stock r)) "true") (row_tags r) g x Hx)
    as [H1 H2].
  split; eapply adjacent_add_rows_mono; eauto.
Qed.

(** X8: after a successful build every record's product is a product node
    that has its category and each token of its tags field among its
    neighbours, and is itself among theirs, whatever the other records
    are. *)
Theorem createGraph_record_edges (py_float : string -> option float)
    (rows : list Row) (g : Graph) (r : Row) (x : string) :
  createGraph py_float rows = Ok g ->
  In r rows ->
  x = r_category r \/ In x (row_tags r) ->
  product_at g (r_id r) = true /\
  has_node x g = true /\
  adjacent g (r_id r) x /\ adjacent g x (r_id r).
Proof.
  intros Hg Hr Hx.
  destruct (@adjacent_add_rows_new py_float rows r x Hr Hx [] g Hg) as [H1 H2].
  split; [exact (row_id_is_product py_float rows r Hg Hr)|].
  split; [|split; assumption].
  destruct H2 as (nd & Hget & _). exact (has_node_get x g Hget).
Qed.

(** X9: two records with different ids that share a name among their
    category and the tokens of their tags fields (the same category, a
    common tag, or the category of one used as a tag of the other) find
    each other: [bfsSearch] from the one returns a list that holds the
    other. *)
Theorem bfsSearch_finds_related (py_float : string -> option float)
    (rows : list Row) (g : Graph) (r r' : Row) (x : string) :
  createGraph py_float rows = Ok g ->
  In r rows -> In r' rows ->
  r_id r' <> r_id r ->
  x = r_category r \/ In x (row_tags r) ->
  x = r_category r' \/ In x (row_tags r') ->
  exists l, bfsSearch g (r_id r) = Some (Ok l) /\ In (r_id r') l.
Proof.
  intros Hg Hr Hr' Hne Hx Hx'.
  pose proof (createGraph_ok py_float rows Hg) as Hok. unfold graph_ok in Hok.
  apply andb_true_iff in Hok. destruct Hok as [Hadj _].
  destruct (@adjacent_add_rows_new py_float rows r x Hr Hx [] g Hg)
    as [(nd & Hget & Hin) _].
  destruct (@adjacent_add_rows_new py_float rows r' x Hr' Hx' [] g Hg)
    as [_ (nd' & Hget' & Hin')].
  destruct (bfsSearch_reach_spec g (r_id r) Hadj (has_node_get _ g Hget))
    as (l & Hl & Hspec).
  exists l. split; [exact Hl|]. apply Hspec. split; [exact Hne|]. split.
  - eapply reach_step; [|exact Hget' | exact Hin'].
    eapply reach_step; [apply reach_start | exact Hget | exact Hin].
  - exact (row_id_is_product py_float rows r' Hg Hr').
Qed.

(** ** More on the builder: the kinds of nodes *)

Lemma dict_set_keys_NoDup (V : Type) (k : string) (v : V) (d : Dict.t V) :
  NoDup (Dict.keys d) -> NoDup (Dict.keys (Dict.set k v d)).
Proof.
  induction d as [|[k' v'] d IH]; intros H; simpl.
  - repeat constructor. intros [].
  - inversion H as [|? ? Hn Hd]; subst. destruct (String.eqb k k') eqn:E.
    + apply String.eqb_eq in E. subst. simpl. now constructor.
    + apply String.eqb_neq in E. simpl. constructor; [|now apply IH].
      intros Hin. apply dict_set_keys in Hin. destruct Hin as [->|Hin]; auto.
Qed.

Lemma dict_In_get (V : Type) (k : string) (v : V) (d : Dict.t V) :
  NoDup (Dict.keys d) -> In (k, v) d -> Dict.get k d = Some v.
Proof.
  induction d as [|[k' v'] d IH]; intros Hnd Hin; [destruct Hin|].
  simpl in *. inversion Hnd as [|? ? Hn Hd]; subst.
  destruct Hin as [[= -> ->]|Hin].
  - now rewrite String.eqb_refl.
  - destruct (String.eqb k k') eqn:E; [|now apply IH].
    apply String.eqb_eq in E. subst. exfalso. apply Hn.
    apply in_map_iff. now exists (k', v).
Qed.

Lemma keys_NoDup_add_product (q cat b : string) (p : float) (st : bool)
    (tags : list string) (g : Graph) :
  NoDup (Dict.keys g) -> NoDup (Dict.keys (add_product g q cat b p st tags)).
Proof.
  assert (Hadj : forall a c r g0, NoDup (Dict.keys g0) ->
                                  NoDup (Dict.keys (set_adj a c r g0))).
  { intros a c r g0 H. unfold set_adj. destruct (Dict.get a g0); [|exact H].
    now apply dict_set_keys_NoDup. }
  assert (Hens : forall m g0, NoDup (Dict.keys g0) ->
                              NoDup (Dict.keys (ensure_node m g0))).
  { intros m g0 H. unfold ensure_node. destruct (has_node m g0); [exact H|].
    now apply dict_set_keys_NoDup. }
  assert (Hnode : forall m a g0, NoDup (Dict.keys g0) ->
                                 NoDup (Dict.keys (add_node m a g0))).
  { intros m a g0 H. unfold add_node.
    destruct (Dict.get m g0); now apply dict_set_keys_NoDup. }
  assert (Hedge : forall a c r g0, NoDup (Dict.keys g0) ->
                                   NoDup (Dict.keys (add_edge a c r g0))).
  { intros a c r g0 H. unfold add_edge. now apply Hadj, Hadj, Hens, Hens. }
  intros H. unfold add_product.
  set (g3 := add_edge q cat "IS A" _).
  assert (H3 : NoDup (Dict.keys g3)).
  { apply Hedge. destruct (has_node cat _); now repeat apply Hnode. }
  clearbody g3. revert g3 H3.
  induction tags as [|t tags IH]; intros g3 H3; simpl; [exact H3|].
  apply IH. unfold add_tag. apply Hedge.
  destruct (has_node t g3); [exact H3 | now apply Hnode].
Qed.

Lemma keys_NoDup_add_rows (f : string -> option float) (rows : list Row) :
  forall g g', NoDup (Dict.keys g) -> add_rows f g rows = Ok g' ->
               NoDup (Dict.keys g').
Proof.
  induction rows as [|r rows IH]; intros g g' H; cbn [add_rows].
  - now intros [= <-].
  - destruct (add_row f g r) as [g1|] eqn:E; cbn [bind]; [|discriminate].
    apply IH. destruct (@add_row_inv f g g1 r E) as (p & _ & ->).
    now apply keys_NoDup_add_product.
Qed.

Lemma graph_kinds_set (k : string) (v : Node) (g : Graph) :
  graph_kinds g -> kind_ok (n_attrs v) -> graph_kinds (Dict.set k v g).
Proof.
  intros Hg Hv k' nd Hin. apply dict_set_In in Hin.
  destruct Hin as [[= -> ->]|Hin]; [exact Hv | exact (Hg k' nd Hin)].
Qed.

Lemma graph_kinds_set_adj (a b r : string) (g : Graph) :
  graph_kinds g -> graph_kinds (set_adj a b r g).
Proof.
  intros Hg. unfold set_adj. destruct (Dict.get a g) as [nd|] eqn:E; [|exact Hg].
  apply graph_kinds_set; [exact Hg|]. cbn [n_attrs].
  exact (Hg a nd (dict_get_In _ _ E)).
Qed.

Lemma graph_kinds_add_edge (a b r : string) (g : Graph) :
  has_node a g = true -> has_node b g = true ->
  graph_kinds g -> graph_kinds (add_edge a b r g).
Proof.
  intros Ha Hb Hg. rewrite add_edge_present by assumption.
  now apply graph_kinds_set_adj, graph_kinds_set_adj.
Qed.

Lemma graph_kinds_absent_add (m ty : string) (g : Graph) :
  ty = "category" \/ ty = "tag" ->
  graph_kinds g ->
  graph_kinds (if has_node m g then g else add_node m (type_attrs ty) g).
Proof.
  intros Hty Hg. destruct (has_node m g) eqn:E; [exact Hg|].
  unfold add_node. unfold has_node, Dict.mem in E.
  destruct (Dict.get m g); [discriminate|].
  apply graph_kinds_set; [exact Hg|]. cbn [n_attrs]. right.
  destruct Hty as [-> | ->]; auto.
Qed.

Lemma graph_kinds_add_product (q cat b : string) (p : float) (st : bool)
    (tags : list string) (g : Graph) :
  graph_kinds g -> graph_kinds (add_product g q cat b p st tags).
Proof.
  intros Hg. unfold add_product.
  set (g1 := add_node q (product_attrs b cat p st tags) g).
  assert (H1 : graph_kinds g1).
  { unfold g1, add_node. destruct (Dict.get q g);
      (apply graph_kinds_set; [exact Hg|]); left; now exists b, cat, p, st, tags. }
  assert (P1 : has_node q g1 = true) by apply add_node_has.
  set (g2 := if has_node cat g1 then g1
             else add_node cat (type_attrs "category") g1).
  assert (H2 : graph_kinds g2) by (apply graph_kinds_absent_add; auto).
  assert (P2 : has_node q g2 = true) by now apply absent_add_mono.
  set (g3 := add_edge q cat "IS A" g2).
  assert (H3 : graph_kinds g3)
    by (apply graph_kinds_add_edge; [exact P2 | apply absent_add_has | exact H2]).
  assert (P3 : has_node q g3 = true) by now apply add_edge_mono.
  clearbody g3. clear - H3 P3. revert g3 H3 P3.
  induction tags as [|t tags IH]; intros g3 H3 P3; simpl; [exact H3|].
  apply IH; [|now apply add_tag_mono]. unfold add_tag.
  apply graph_kinds_add_edge;
    [now apply absent_add_mono | apply absent_add_has |].
  apply graph_kinds_absent_add; auto.
Qed.

Lemma graph_kinds_add_rows (f : string -> option float) (rows : list Row) :
  forall g g', graph_kinds g -> add_rows f g rows = Ok g' -> graph_kinds g'.
Proof.
  induction rows as [|r rows IH]; intros g g' H; cbn [add_rows].
  - now intros [= <-].
  - destruct (add_row f g r) as [g1|] eqn:E; cbn [bind]; [|discriminate].
    apply IH. destruct (@add_row_inv f g g1 r E) as (p & _ & ->).
    now apply graph_kinds_add_product.
Qed.

Lemma createGraph_kinds (f : string -> option float) (rows : list Row)
    (g : Graph) :
  createGraph f rows = Ok g -> graph_kinds g /\ NoDup (Dict.keys g).
Proof.
  intros H. split.
  - apply (@graph_kinds_add_rows f rows [] g); [|exact H]. intros k nd [].
  - apply (@keys_NoDup_add_rows f rows [] g); [constructor | exact H].
Qed.

(** X10: in a built graph every neighbour recorded for a node is itself a
    node; every node is either a product carrying brand, category, price,
    stock and tags, or a bare category or tag node; and the category of
    every product is a node. *)
Theorem createGraph_well_formed (py_float : string -> option float)
    (rows : list Row) (g : Graph) (n : string) (nd : Node) :
  createGraph py_float rows = Ok g ->
  Dict.get n g = Some nd ->
  (forall m, In m (Dict.keys (n_adj nd)) -> has_node m g = true) /\
  kind_ok (n_attrs nd) /\
  (forall b c p s t, n_attrs nd = product_attrs b c p s t ->
                     has_node c g = true).
Proof.
  intros Hg Hget. pose proof (dict_get_In _ _ Hget) as Hin.
  assert (Hwf : graph_wf nothing g).
  { apply (@graph_wf_add_rows py_float rows [] g); [|exact Hg]. intros k x []. }
  destruct (Hwf n nd Hin) as [Hc Hp].
  destruct (createGraph_kinds py_float rows Hg) as [Hk _].
  split; [|split].
  - intros m Hm. now destruct (Hc m Hm) as [[]|H].
  - exact (Hk n nd Hin).
  - intros b c p s t E.
    assert (Hprod : is_product (n_attrs nd) = true) by now rewrite E.
    destruct (Hp Hprod) as (b' & c' & p' & s' & t' & E' & [[]|Hk']).
    rewrite E in E'. now injection E' as _ -> _ _ _.
Qed.

Lemma node_lists_partition (g : Graph) :
  graph_kinds g ->
  exists ps cs ts,
    nodes_of_type "product" g = Ok ps /\
    nodes_of_type "category" g = Ok cs /\
    nodes_of_type "tag" g = Ok ts /\
    Permutation (ps ++ cs ++ ts) (Dict.keys g) /\
    (forall n, In n ps <->
               exists nd, In (n, nd) g /\ is_product (n_attrs nd) = true).
Proof.
  induction g as [|[n nd] g IH]; intros Hk.
  - exists [], [], []. repeat split; try reflexivity; try constructor.
    + intros [].
    + intros (nd & [] & _).
  - destruct IH as (ps & cs & ts & Hp & Hc & Ht & Hperm & Hin).
    { intros k x Hx. apply (Hk k x). now right. }
    cbn [nodes_of_type]. rewrite Hp, Hc, Ht.
    destruct (Hk n nd (or_introl eq_refl))
      as [(b & c & p & s & t & E)|[E|E]]; rewrite E; cbn.
    + exists (n :: ps), cs, ts. repeat split; try reflexivity.
      * simpl. now constructor.
      * intros [<-|H].
        -- exists nd. split; [now left | now rewrite E].
        -- apply Hin in H. destruct H as (x & Hx & Hpx). exists x. auto.
      * intros (x & [[= <- <-]|Hx] & Hpx); [now left | right].
        apply Hin. now exists x.
    + exists ps, (n :: cs), ts. repeat split; try reflexivity.
      * simpl. symmetry. apply Permutation_cons_app. now symmetry.
      * intros H. apply Hin in H. destruct H as (x & Hx & Hpx). exists x. auto.
      * intros (x & [[= <- <-]|Hx] & Hpx).
        -- rewrite E in Hpx. discriminate.
        -- apply Hin. now exists x.
    + exists ps, cs, (n :: ts). repeat split; try reflexivity.
      * simpl. symmetry. rewrite app_assoc. apply Permutation_cons_app.
        rewrite <- app_assoc. now symmetry.
      * intros H. apply Hin in H. destruct H as (x & Hx & Hpx). exists x. auto.
      * intros (x & [[= <- <-]|Hx] & Hpx).
        -- rewrite E in Hpx. discriminate.
        -- apply Hin. now exists x.
Qed.

(** X11: on a built graph the three list comprehensions of
    [visualizeGraph] (products, categories, tags) raise no [KeyError], and
    together they hold every node exactly once; the first holds exactly the
    product nodes. *)
Theorem createGraph_node_lists (py_float : string -> option float)
    (rows : list Row) (g : Graph) :
  createGraph py_float rows = Ok g ->
  exists ps cs ts,
    nodes_of_type "product" g = Ok ps /\
    nodes_of_type "category" g = Ok cs /\
    nodes_of_type "tag" g = Ok ts /\
    Permutation (ps ++ cs ++ ts) (Dict.keys g) /\
    NoDup (Dict.keys g) /\
    (forall n, In n ps <-> product_at g n = true).
Proof.
  intros Hg. destruct (createGraph_kinds py_float rows Hg) as [Hk Hnd].
  destruct (node_lists_partition Hk) as (ps & cs & ts & Hp & Hc & Ht & Hperm & Hin).
  exists ps, cs, ts. repeat split; try assumption.
  - intros H. apply Hin in H. destruct H as (nd & Hx & Hpx).
    unfold product_at. now rewrite (dict_In_get _ _ _ Hnd Hx).
  - intros H. apply Hin. unfold product_at in H.
    destruct (Dict.get n g) as [nd|] eqn:E; [|discriminate].
    exists nd. split; [now apply dict_get_In | exact H].
Qed.

(** X12: on a built graph [findAlternatives] never fails for a product id,
    whatever the price limit, the required tags and the preferred brand: it
    returns a list of at most three tuples.  For a node that is a category
    or a tag it raises [KeyError] for the key "stock". *)
Theorem findAlternatives_on_built_graph (py_float : string -> option float)
    (rows : list Row) (g : Graph) (req : string) (maxPrice : float)
    (requiredTags : list string) (preferredBrand : option string) :
  createGraph py_float rows = Ok g ->
  has_node req g = true ->
  (product_at g req = true ->
   exists items,
     findAlternatives g req maxPrice requiredTags preferredBrand
     = Some (Ok items) /\ length items <= 3) /\
  (product_at g req = false ->
   findAlternatives g req maxPrice requiredTags preferredBrand
   = Some (Raise (KeyError "stock"))).
Proof.
  intros Hg Hreq. destruct (createGraph_kinds py_float rows Hg) as [Hk _].
  pose proof (createGraph_ok py_float rows Hg) as Hok.
  pose proof Hreq as Hreq'. unfold has_node, Dict.mem in Hreq'.
  unfold product_at.
  destruct (Dict.get req g) as [nd|] eqn:Hget; [|discriminate].
  assert (Hn : nodes_get g req = Ok (n_attrs nd))
    by (unfold nodes_get; now rewrite Hget).
  destruct (Hk req nd (dict_get_In _ _ Hget))
    as [(b & c & p & s & t & E)|Hbare].
  - rewrite E in Hn. split; [intros _ | rewrite E; discriminate].
    destruct s.
    + eexists. split.
      * unfold findAlternatives. rewrite Hreq, Hn. reflexivity.
      * simpl. lia.
    + destruct (@finder_pipeline g req b c p t maxPrice requiredTags
                  preferredBrand Hok Hn)
        as (cands & valid & _ & _ & _ & _ & _ & _ & _ & Hfind).
      eexists. split; [exact Hfind|].
      rewrite length_map. apply firstn_le_length.
  - split.
    + destruct Hbare as [E|E]; rewrite E; discriminate.
    + intros _. unfold findAlternatives. rewrite Hreq, Hn.
      destruct Hbare as [E|E]; rewrite E; reflexivity.
Qed.

(** ** More on the search form *)

Lemma rstrip_idem (s : string) : rstrip (rstrip s) = rstrip s.
Proof.
  induction s as [|c s IH]; [reflexivity|]. cbn [rstrip].
  destruct (rstrip s) as [|c1 r1] eqn:E.
  - destruct (is_space c) eqn:Ec; [reflexivity|]. cbn [rstrip]. now rewrite Ec.
  - cbn [rstrip] in *. now rewrite IH.
Qed.

Lemma rstrip_head (c : ascii) (s : string) :
  is_space c = false -> exists r, rstrip (String c s) = String c r.
Proof.
  intros Hc. cbn [rstrip]. destruct (rstrip s) as [|c1 r1].
  - rewrite Hc. eauto.
  - eauto.
Qed.

Lemma lstrip_head (s : string) :
  lstrip s = "" \/
  exists c s', lstrip s = String c s' /\ is_space c = false.
Proof.
  induction s as [|c s IH]; [now left|]. cbn [lstrip].
  destruct (is_space c) eqn:Ec; [exact IH|]. right. eauto.
Qed.

Lemma strip_idem (s : string) : strip (strip s) = strip s.
Proof.
  unfold strip. destruct (lstrip_head s) as [E|(c & s' & E & Hc)]; rewrite E.
  - reflexivity.
  - destruct (@rstrip_head c s' Hc) as (r & Hr). rewrite Hr.
    cbn [lstrip]. rewrite Hc, <- Hr. apply rstrip_idem.
Qed.

Lemma has_char_lstrip (c : ascii) (s : string) :
  has_char c s = false -> has_char c (lstrip s) = false.
Proof.
  induction s as [|c' s IH]; [reflexivity|]. cbn [lstrip has_char].
  intros H. apply orb_false_iff in H. destruct H as [H1 H2].
  destruct (is_space c'); [now apply IH|]. cbn [has_char]. now rewrite H1, H2.
Qed.

Lemma has_char_rstrip (c : ascii) (s : string) :
  has_char c s = false -> has_char c (rstrip s) = false.
Proof.
  induction s as [|c' s IH]; [reflexivity|]. cbn [rstrip has_char].
  intros H. apply orb_false_iff in H. destruct H as [H1 H2].
  specialize (IH H2). destruct (rstrip s) as [|c1 r1].
  - destruct (is_space c'); [reflexivity|]. cbn [has_char]. now rewrite H1.
  - cbn [has_char] in *. now rewrite H1, IH.
Qed.

Lemma split_no_separator (sep : ascii) (s : string) :
  Forall (fun t => has_char sep t = false) (split sep s).
Proof.
  induction s as [|c s IH]; cbn [split]; [repeat constructor|].
  destruct (Ascii.eqb c sep) eqn:E.
  - constructor; [reflexivity | exact IH].
  - destruct (split sep s) as [|tok toks].
    + constructor; [|constructor]. cbn [has_char]. now rewrite E.
    + inversion IH as [|? ? Ht Hts]; subst. constructor; [|exact Hts].
      cbn [has_char]. now rewrite E, Ht.
Qed.

(** X13: for an ASCII text, the required tags the search form parses from
    its text field are the trimmed non-blank tokens between the
    separators: none of them is empty, none has surrounding white space
    (trimming it again changes nothing), none holds a [";"], and each is
    the trimmed form of a token of the text. *)
Theorem parse_required_tags_tokens (text t : string) :
  ascii_text text = true ->
  In t (parse_required_tags text) ->
  t <> "" /\ strip t = t /\ has_char ";" t = false /\
  exists tok, In tok (split ";" text) /\ t = strip tok.
Proof.
  unfold parse_required_tags. intros _ H. apply in_map_iff in H.
  destruct H as (tok & <- & Htok). apply filter_In in Htok.
  destruct Htok as [Hin Hne]. split; [|split; [|split]].
  - intros E. rewrite E in Hne. discriminate.
  - apply strip_idem.
  - unfold strip. apply has_char_rstrip, has_char_lstrip.
    pose proof (split_no_separator ";" text) as Hall.
    rewrite Forall_forall in Hall. now apply Hall.
  - now exists tok.
Qed.

Lemma parse_clean_tokens (toks : list string) :
  Forall clean_token toks ->
  map strip (filter (fun t => nonempty (strip t)) toks) = toks.
Proof.
  induction 1 as [|t toks [Hs Hne] _ IH]; [reflexivity|].
  cbn [filter]. rewrite Hs. destruct t as [|c t]; [contradiction|].
  cbn [nonempty map]. now rewrite Hs, IH.
Qed.

(** X14: when a record's tags field is ASCII text and every token of it
    is trimmed and not empty, the search form reads the same text as
    exactly the tags the builder stores for the record, so all of them
    are found among the record's tags. *)
Theorem parse_required_tags_agrees (r : Row) :
  ascii_text (r_tags r) = true ->
  Forall clean_token (row_tags r) ->
  parse_required_tags (r_tags r) = row_tags r /\
  forallb (fun t => str_in t (row_tags r)) (parse_required_tags (r_tags r))
  = true.
Proof.
  intros _ H. unfold parse_required_tags.
  assert (E : map strip (filter (fun t => nonempty (strip t)) (split ";" (r_tags r)))
              = row_tags r) by exact (parse_clean_tokens H).
  split; [exact E|]. rewrite E. apply forallb_forall. intros t Ht.
  now apply str_in_In.
Qed.

(** ** More on the builder: both directions of an edge *)

Lemma edge_set_adj (a b r u v rel : string) (g : Graph) :
  has_node a g = true ->
  (edge (set_adj a b r g) u v rel <->
   (u = a /\ v = b /\ rel = r) \/ (~ (u = a /\ v = b) /\ edge g u v rel)).
Proof.
  intros Ha. unfold has_node, Dict.mem in Ha.
  destruct (Dict.get a g) as [nda|] eqn:Ea; [|discriminate]. clear Ha.
  pose proof (@set_adj_get_same a b r g nda Ea) as Hnew.
  split.
  - intros (nd & Hg & Hv). destruct (string_dec u a) as [->|Hne].
    + rewrite Hnew in Hg. injection Hg as <-. cbn [n_adj] in Hv.
      destruct (string_dec v b) as [->|Hvb].
      * rewrite dict_get_set_same in Hv. injection Hv as <-. now left.
      * rewrite dict_get_set_other in Hv by exact Hvb. right.
        split; [tauto|]. now exists nda.
    + rewrite set_adj_get_other in Hg by exact Hne. right.
      split; [tauto|]. now exists nd.
  - intros [(-> & -> & ->)|(Hnot & nd & Hg & Hv)].
    + eexists. split; [exact Hnew|]. cbn [n_adj]. apply dict_get_set_same.
    + destruct (string_dec u a) as [->|Hne].
      * rewrite Ea in Hg. injection Hg as <-.
        eexists. split; [exact Hnew|]. cbn [n_adj].
        rewrite dict_get_set_other; [exact Hv | tauto].
      * exists nd. now rewrite set_adj_get_other.
Qed.

Lemma edge_set_absent (m u v rel : string) (a : Attrs) (g : Graph) :
  has_node m g = false ->
  (edge (Dict.set m (mkNode a []) g) u v rel <-> edge g u v rel).
Proof.
  intros Hm. unfold has_node, Dict.mem in Hm.
  destruct (Dict.get m g) eqn:Em; [discriminate|].
  split; intros (nd & Hg & Hv); destruct (string_dec u m) as [->|Hne].
  - rewrite dict_get_set_same in Hg. injection Hg as <-. discriminate.
  - rewrite dict_get_set_other in Hg by exact Hne. now exists nd.
  - congruence.
  - exists nd. now rewrite dict_get_set_other.
Qed.

Lemma edge_ensure (m u v rel : string) (g : Graph) :
  edge (ensure_node m g) u v rel <-> edge g u v rel.
Proof.
  unfold ensure_node. destruct (has_node m g) eqn:E; [tauto|].
  now apply edge_set_absent.
Qed.

Lemma edge_add_node (m u v rel : string) (a : Attrs) (g : Graph) :
  edge (add_node m a g) u v rel <-> edge g u v rel.
Proof.
  unfold add_node. destruct (Dict.get m g) as [nd0|] eqn:E.
  - split; intros (nd & Hg & Hv); destruct (string_dec u m) as [->|Hne].
    + rewrite dict_get_set_same in Hg. injection Hg as <-. now exists nd0.
    + rewrite dict_get_set_other in Hg by exact Hne. now exists nd.
    + rewrite E in Hg. injection Hg as <-. eexists.
      split; [apply dict_get_set_same | exact Hv].
    + exists nd. now rewrite dict_get_set_other.
  - apply edge_set_absent. unfold has_node, Dict.mem. now rewrite E.
Qed.

Lemma undirected_add_edge (a b r : string) (g : Graph) :
  undirected g -> undirected (add_edge a b r g).
Proof.
  intros Hg. unfold add_edge.
  set (g2 := ensure_node b (ensure_node a g)).
  assert (H2 : undirected g2).
  { intros u v rel H. unfold g2 in *. rewrite !edge_ensure in *. now apply Hg. }
  assert (Pa : has_node a g2 = true) by apply ensure_node_mono, ensure_node_has.
  assert (Pb : has_node b (set_adj a b r g2) = true)
    by (rewrite set_adj_has; apply ensure_node_has).
  intros u v rel H.
  apply (@edge_set_adj b a r u v rel _ Pb) in H.
  apply (@edge_set_adj b a r v u rel _ Pb).
  destruct H as [(-> & -> & ->)|(Hnot & H)].
  - destruct (string_dec a b) as [->|Hab]; [now left | right].
    split; [tauto|]. apply (@edge_set_adj a b r a b r _ Pa). now left.
  - apply (@edge_set_adj a b r u v rel _ Pa) in H.
    destruct H as [(-> & -> & ->)|(Hnot' & H)]; [now left | right].
    split; [tauto|]. apply (@edge_set_adj a b r v u rel _ Pa). right.
    split; [tauto|]. now apply H2.
Qed.

Lemma undirected_absent_add (m : string) (a : Attrs) (g : Graph) :
  undirected g -> undirected (if has_node m g then g else add_node m a g).
Proof.
  intros Hg. destruct (has_node m g); [exact Hg|].
  intros u v rel H. rewrite edge_add_node in *. now apply Hg.
Qed.

Lemma undirected_add_product (q cat b : string) (p : float) (st : bool)
    (tags : list string) (g : Graph) :
  undirected g -> undirected (add_product g q cat b p st tags).
Proof.
  intros Hg. unfold add_product.
  set (g3 := add_edge q cat "IS A" _).
  assert (H3 : undirected g3).
  { apply undirected_add_edge, undirected_absent_add.
    intros u v rel H. rewrite edge_add_node in *. now apply Hg. }
  clearbody g3. revert g3 H3.
  induction tags as [|t tags IH]; intros g3 H3; simpl; [exact H3|].
  apply IH. unfold add_tag. now apply undirected_add_edge, undirected_absent_add.
Qed.

Lemma undirected_add_rows (f : string -> option float) (rows : list Row) :
  forall g g', undirected g -> add_rows f g rows = Ok g' -> undirected g'.
Proof.
  induction rows as [|r rows IH]; intros g g' H; cbn [add_rows].
  - now intros [= <-].
  - destruct (add_row f g r) as [g1|] eqn:E; cbn [bind]; [|discriminate].
    apply IH. destruct (@add_row_inv f g g1 r E) as (p & _ & ->).
    now apply undirected_add_product.
Qed.

Lemma createGraph_edges_both_ways (f : string -> option float)
    (rows : list Row) (g : Graph) :
  createGraph f rows = Ok g -> undirected g.
Proof.
  intros H. apply (@undirected_add_rows f rows [] g); [|exact H].
  intros u v rel (nd & Hg & _). discriminate.
Qed.

(** X15: a built graph is undirected: whenever [v] is recorded as a
    neighbour of [u] under a relation, [u] is recorded as a neighbour of
    [v] under the same relation. *)
Theorem createGraph_undirected (py_float : string -> option float)
    (rows : list Row) (g : Graph) (u v rel : string) :
  createGraph py_float rows = Ok g ->
  edge g u v rel -> edge g v u rel.
Proof.
  intros Hg H.
  exact (@createGraph_edges_both_ways py_float rows g Hg u v rel H).
Qed.

Lemma reachable_trans (g : Graph) (a b c : string) :
  reachable g a b -> reachable g b c -> reachable g a c.
Proof.
  intros Hab Hbc. induction Hbc as [|n m nd _ IH Hg Hm]; [exact Hab|].
  now apply reach_step with (n := n) (nd := nd).
Qed.

Lemma reachable_sym (g : Graph) (a b : string) :
  undirected g -> reachable g a b -> reachable g b a.
Proof.
  intros Hu H. induction H as [|n m nd _ IH Hg Hm]; [constructor|].
  apply reachable_trans with (b := n); [|exact IH].
  apply dict_mem_keys in Hm. unfold Dict.mem in Hm.
  destruct (Dict.get m (n_adj nd)) as [rel|] eqn:E; [|discriminate].
  destruct (Hu n m rel) as (nd' & Hg' & Hv'); [now exists nd|].
  apply reach_step with (n := m) (nd := nd'); [constructor | exact Hg' |].
  apply dict_mem_keys. unfold Dict.mem. now rewrite Hv'.
Qed.

(** X16: discovery is mutual: for two different product nodes of a built
    graph, [bfsSearch] from the first returns the second exactly when
    [bfsSearch] from the second returns the first. *)
Theorem bfsSearch_symmetric (py_float : string -> option float)
    (rows : list Row) (g : Graph) (a b : string) :
  createGraph py_float rows = Ok g ->
  product_at g a = true -> product_at g b = true ->
  a <> b ->
  exists la lb,
    bfsSearch g a = Some (Ok la) /\ bfsSearch g b = Some (Ok lb) /\
    (In b la <-> In a lb).
Proof.
  intros Hg Ha Hb Hne.
  pose proof (@createGraph_ok py_float rows g Hg) as Hok.
  unfold graph_ok in Hok. apply andb_true_iff in Hok. destruct Hok as [Hadj _].
  pose proof (@createGraph_edges_both_ways py_float rows g Hg) as Hu.
  assert (Pa : has_node a g = true).
  { unfold product_at in Ha. unfold has_node, Dict.mem.
    destruct (Dict.get a g); [reflexivity | discriminate]. }
  assert (Pb : has_node b g = true).
  { unfold product_at in Hb. unfold has_node, Dict.mem.
    destruct (Dict.get b g); [reflexivity | discriminate]. }
  destruct (bfsSearch_reach_spec g a Hadj Pa) as (la & Hla & Sa).
  destruct (bfsSearch_reach_spec g b Hadj Pb) as (lb & Hlb & Sb).
  exists la, lb. split; [exact Hla|]. split; [exact Hlb|].
  rewrite Sa, Sb. split; intros (_ & Hr & _); repeat split; auto;
    now apply reachable_sym.
Qed.

(** ** Queries on nodes that are not products *)

(** X17: on a built graph the filter, the scorer and the explanation
    reject a category or tag node with [KeyError]: [checkConstraints] for
    the key "stock", [scoreCandidate] and [explainRules] for the key
    "category", whether the node is passed as the requested or as the
    candidate product; an id that is not a node raises [KeyError] for the
    id itself. *)
Theorem queries_on_bare_nodes (py_float : string -> option float)
    (rows : list Row) (g : Graph) (n p x : string) (maxPrice : float)
    (requiredTags : list string) (preferredBrand : option string) :
  createGraph py_float rows = Ok g ->
  has_node n g = true -> product_at g n = false ->
  product_at g p = true ->
  has_node x g = false ->
  checkConstraints g n maxPrice requiredTags preferredBrand
  = Raise (KeyError "stock") /\
  scoreCandidate g n p = Raise (KeyError "category") /\
  scoreCandidate g p n = Raise (KeyError "category") /\
  explainRules g n p requiredTags = Raise (KeyError "category") /\
  explainRules g p n requiredTags = Raise (KeyError "category") /\
  checkConstraints g x maxPrice requiredTags preferredBrand
  = Raise (KeyError x) /\
  scoreCandidate g x p = Raise (KeyError x) /\
  scoreCandidate g p x = Raise (KeyError x).
Proof.
  intros Hg Hn Hbare Hp Hx. destruct (createGraph_kinds py_float rows Hg) as [Hk _].
  unfold has_node, Dict.mem in Hn, Hx. unfold product_at in Hbare, Hp.
  destruct (Dict.get n g) as [nd|] eqn:En; [|discriminate].
  destruct (Dict.get p g) as [pd|] eqn:Ep; [|discriminate].
  destruct (Dict.get x g) eqn:Ex; [discriminate|].
  assert (Hnn : nodes_get g n = Ok (n_attrs nd))
    by (unfold nodes_get; now rewrite En).
  assert (Hpp : nodes_get g p = Ok (n_attrs pd))
    by (unfold nodes_get; now rewrite Ep).
  assert (Hxx : nodes_get g x = Raise (KeyError x))
    by (unfold nodes_get; now rewrite Ex).
  destruct (Hk p pd (dict_get_In _ _ Ep)) as [(b & c & pr & s & t & E)|Hb];
    [|destruct Hb as [E|E]; rewrite E in Hp; discriminate].
  rewrite E in Hpp.
  assert (Hcat : a_category (n_attrs nd) = None /\ a_stock (n_attrs nd) = None).
  { destruct (Hk n nd (dict_get_In _ _ En)) as [(b' & c' & pr' & s' & t' & E')|Hb].
    - rewrite E' in Hbare. discriminate.
    - destruct Hb as [E'|E']; rewrite E'; auto. }
  destruct Hcat as [Hc Hs].
  unfold checkConstraints, scoreCandidate, explainRules.
  rewrite Hnn, Hpp, Hxx. cbn [bind attr product_attrs a_category]. rewrite Hc, Hs.
  repeat split; reflexivity.
Qed.

(** X18: the product nodes of a built graph are exactly the ids of the
    records: every id is a product node, also when it is used as a
    category or tag name elsewhere, and no other node has the type
    "product". *)
Theorem createGraph_products_are_ids (py_float : string -> option float)
    (rows : list Row) (g : Graph) (n : string) :
  createGraph py_float rows = Ok g ->
  (product_at g n = true <-> In n (map r_id rows)).
Proof.
  intros Hg. split.
  - unfold product_at. destruct (Dict.get n g) as [nd|] eqn:E; [|discriminate].
    intros Hp.
    destruct (@product_node_is_row py_float rows g n nd Hg E Hp) as (r & Hr & <-).
    now apply in_map.
  - intros Hin. apply in_map_iff in Hin. destruct Hin as (r & <- & Hr).
    exact (@row_id_is_product py_float rows g r Hg Hr).
Qed.

(** ** The theorems at work on the sample catalogues *)

Lemma shoes_scenario_witness :
  float_of_digits "50" = Some 50%float /\
  float_of_digits "40" = Some 40%float /\
  float_of_digits "60" = Some 60%float /\
  exists g,
    createGraph float_of_digits shoeRows = Ok g /\
    findAlternatives g "A" 100%float ["running"] None =
    Some (Ok [Tuple3 "B" 5 ["Same Category"; "All tags matched";
                            "Cheaper than original"; "Same brand"];
              Tuple3 "C" 3 ["Same Category"; "All tags matched";
                            "Different brand"]]).
Proof.
  split; [vm_compute; reflexivity|].
  split; [vm_compute; reflexivity|].
  split; [vm_compute; reflexivity|].
  apply (@shoes_scenario float_of_digits); vm_compute; reflexivity.
Defined.

Lemma scoreCandidate_similar_category_witness :
  nodes_get clashGraph "Q"
  = Ok (product_attrs "X" "boots" 50%float false ["leather"]) /\
  nodes_get clashGraph "boots"
  = Ok (product_attrs "Y" "shoes" 60%float true ["leather"]) /\
  "boots" <> "shoes" /\
  neighbors clashGraph "boots" = Ok ["shoes"; "leather"; "Q"] /\
  category_score clashGraph "boots" "shoes" 0 = Ok 1%Z /\
  scoreCandidate clashGraph "Q" "boots" = Ok 1%Z.
Proof.
  assert (H1 : nodes_get clashGraph "Q"
               = Ok (product_attrs "X" "boots" 50%float false ["leather"]))
    by (vm_compute; reflexivity).
  assert (H2 : nodes_get clashGraph "boots"
               = Ok (product_attrs "Y" "shoes" 60%float true ["leather"]))
    by (vm_compute; reflexivity).
  assert (H3 : "boots" <> "shoes") by discriminate.
  assert (H4 : neighbors clashGraph "boots" = Ok ["shoes"; "leather"; "Q"])
    by (vm_compute; reflexivity).
  destruct (scoreCandidate_similar_category clashGraph "Q" "boots" H1 H2 H3 H4)
    as (Hc & _ & Hs).
  repeat split; assumption.
Defined.

Lemma findAlternatives_short_cuts_witness :
  (has_node "Z" shoeGraph = false /\
   findAlternatives shoeGraph "Z" 100%float ["running"] None = Some (Ok [])) /\
  (nodes_get shoeGraph "B"
   = Ok (product_attrs "X" "shoes" 40%float true ["running"; "light"]) /\
   findAlternatives shoeGraph "B" 100%float ["running"] None
   = Some (Ok [Tuple4 "EXACT_MATCH" "B" 999 ["product_in_stock"]])).
Proof.
  split.
  - split; [vm_compute; reflexivity|].
    apply (findAlternatives_short_cuts shoeGraph "Z" 100%float ["running"] None).
    vm_compute; reflexivity.
  - split; [vm_compute; reflexivity|].
    apply (proj2 (findAlternatives_short_cuts shoeGraph "B" 100%float
                    ["running"] None))
      with (a := product_attrs "X" "shoes" 40%float true ["running"; "light"]).
    + vm_compute; reflexivity.
    + reflexivity.
Defined.

Lemma explainRules_entries_witness :
  nodes_get shoeGraph "A"
  = Ok (product_attrs "X" "shoes" 50%float false ["running"]) /\
  nodes_get shoeGraph "B"
  = Ok (product_attrs "X" "shoes" 40%float true ["running"; "light"]) /\
  exists rules,
    explainRules shoeGraph "A" "B" ["running"] = Ok rules /\
    rules = ["Same Category"; "All tags matched"; "Cheaper than original";
             "Same brand"] /\
    2 <= length rules <= 4.
Proof.
  assert (H1 : nodes_get shoeGraph "A"
               = Ok (product_attrs "X" "shoes" 50%float false ["running"]))
    by (vm_compute; reflexivity).
  assert (H2 : nodes_get shoeGraph "B"
               = Ok (product_attrs "X" "shoes" 40%float true ["running"; "light"]))
    by (vm_compute; reflexivity).
  split; [exact H1|]. split; [exact H2|].
  exact (explainRules_entries shoeGraph "A" "B" ["running"] H1 H2).
Defined.

Lemma createGraph_failure_witness :
  Exists (fun r => float_of_digits (r_price r) = None) badPriceRows /\
  createGraph float_of_digits badPriceRows = Raise ValueError /\
  Forall (numeric float_of_digits) oddStockRows /\
  exists g,
    createGraph float_of_digits oddStockRows = Ok g /\
    forall pre r post,
      oddStockRows = pre ++ r :: post ->
      Forall (fun x => r_id x <> r_id r) post ->
      exists a,
        nodes_get g (r_id r) = Ok a /\
        a_stock a = Some (String.eqb (lower (r_stock r)) "true").
Proof.
  assert (H : Exists (fun r => float_of_digits (r_price r) = None) badPriceRows).
  { apply Exists_cons_tl, Exists_cons_hd. vm_compute. reflexivity. }
  assert (H' : Forall (numeric float_of_digits) oddStockRows).
  { repeat constructor. unfold numeric. vm_compute. discriminate. }
  split; [exact H|].
  split; [exact (proj1 (createGraph_failure float_of_digits badPriceRows) H)|].
  split; [exact H'|].
  exact (proj2 (createGraph_failure float_of_digits oddStockRows) H').
Defined.

Lemma checkConstraints_iff_witness :
  nodes_get shoeGraph "B"
  = Ok (product_attrs "X" "shoes" 40%float true ["running"; "light"]) /\
  exists b,
    checkConstraints shoeGraph "B" 100%float ["running"] (Some "X") = Ok b /\
    (b = true <->
       true = true /\
       PrimFloat.ltb 100%float 40%float = false /\
       (forall tag, In tag ["running"] -> In tag ["running"; "light"]) /\
       (Some "X" = None \/ Some "X" = Some "" \/ Some "X" = Some "X")).
Proof.
  assert (H : nodes_get shoeGraph "B"
              = Ok (product_attrs "X" "shoes" 40%float true ["running"; "light"]))
    by (vm_compute; reflexivity).
  split; [exact H|].
  exact (checkConstraints_iff shoeGraph "B" 100%float ["running"] (Some "X") H).
Defined.

Lemma findAlternatives_ranking_witness :
  graph_ok shoeGraph = true /\
  nodes_get shoeGraph "A"
  = Ok (product_attrs "X" "shoes" 50%float false ["running"]) /\
  exists cands valid,
    bfsSearch shoeGraph "A" = Some (Ok cands) /\
    collect_valid shoeGraph "A" 100%float ["running"] None cands [] = Ok valid /\
    map entry_id valid = filter (passes shoeGraph 100%float ["running"] None) cands /\
    Forall (fun x => scoreCandidate shoeGraph "A" (entry_id x) = Ok (entry_score x) /\
                     explainRules shoeGraph "A" (entry_id x) ["running"]
                     = Ok (entry_rules x)) valid /\
    findAlternatives shoeGraph "A" 100%float ["running"] None
    = Some (Ok (map to_item (firstn 3 (sort_desc valid)))) /\
    Permutation (sort_desc valid) valid /\
    StronglySorted desc (sort_desc valid) /\
    (forall s, filter (same_score s) (sort_desc valid) = filter (same_score s) valid) /\
    length (firstn 3 (sort_desc valid)) <= 3.
Proof.
  assert (H1 : graph_ok shoeGraph = true) by (vm_compute; reflexivity).
  assert (H2 : nodes_get shoeGraph "A"
               = Ok (product_attrs "X" "shoes" 50%float false ["running"]))
    by (vm_compute; reflexivity).
  split; [exact H1|]. split; [exact H2|].
  exact (findAlternatives_ranking shoeGraph "A" 100%float ["running"] None H1 H2).
Defined.

Lemma createGraph_product_edges_witness :
  catalogue_ok shoeRows = true /\
  createGraph float_of_digits shoeRows = Ok shoeGraph /\
  Dict.get "B" shoeGraph
  = Some (mkNode (product_attrs "X" "shoes" 40%float true ["running"; "light"])
            [("shoes", "IS A"); ("running", "HAS TAG"); ("light", "HAS TAG")]) /\
  exists r price,
    In r shoeRows /\ r_id r = "B" /\
    float_of_digits (r_price r) = Some price /\
    product_attrs "X" "shoes" 40%float true ["running"; "light"]
    = product_attrs (r_brand r) (r_category r) price
        (String.eqb (lower (r_stock r)) "true") (row_tags r) /\
    has_node (r_category r) shoeGraph = true /\
    [("shoes", "IS A")] = [(r_category r, "IS A")] /\
    [("running", "HAS TAG"); ("light", "HAS TAG")]
    = map has_tag_edge (distinct (row_tags r)) /\
    [("shoes", "IS A"); ("running", "HAS TAG"); ("light", "HAS TAG")]
    = [("shoes", "IS A")] ++ [("running", "HAS TAG"); ("light", "HAS TAG")] /\
    NoDup (distinct (row_tags r)) /\
    (forall t, In t (distinct (row_tags r)) <-> In t (row_tags r)).
Proof.
  assert (H1 : catalogue_ok shoeRows = true) by (vm_compute; reflexivity).
  assert (H2 : createGraph float_of_digits shoeRows = Ok shoeGraph)
    by (vm_compute; reflexivity).
  assert (H3 : Dict.get "B" shoeGraph
    = Some (mkNode (product_attrs "X" "shoes" 40%float true ["running"; "light"])
              [("shoes", "IS A"); ("running", "HAS TAG"); ("light", "HAS TAG")]))
    by (vm_compute; reflexivity).
  split; [exact H1|]. split; [exact H2|]. split; [exact H3|].
  exact (@createGraph_product_edges float_of_digits shoeRows shoeGraph "B" _
           H1 H2 H3 eq_refl).
Defined.

Lemma bfsSearch_no_duplicates_witness :
  adj_closed shoeGraph = true /\
  has_node "A" shoeGraph = true /\
  exists l, bfsSearch shoeGraph "A" = Some (Ok l) /\ NoDup l.
Proof.
  assert (H1 : adj_closed shoeGraph = true) by (vm_compute; reflexivity).
  assert (H2 : has_node "A" shoeGraph = true) by (vm_compute; reflexivity).
  split; [exact H1|]. split; [exact H2|].
  exact (bfsSearch_no_duplicates shoeGraph "A" H1 H2).
Defined.

Lemma bfsSearch_unknown_start_witness :
  has_node "Z" shoeGraph = false /\
  bfsSearch shoeGraph "Z" = Some (Raise (KeyError "Z")).
Proof.
  assert (H : has_node "Z" shoeGraph = false) by (vm_compute; reflexivity).
  split; [exact H | exact (@bfsSearch_unknown_start shoeGraph "Z" H)].
Defined.

Lemma bfsSearch_reachable_products_witness :
  adj_closed shoeGraph = true /\
  has_node "A" shoeGraph = true /\
  exists l,
    bfsSearch shoeGraph "A" = Some (Ok l) /\
    forall p, In p l <->
      (p <> "A" /\ reachable shoeGraph "A" p /\ product_at shoeGraph p = true).
Proof.
  assert (H1 : adj_closed shoeGraph = true) by (vm_compute; reflexivity).
  assert (H2 : has_node "A" shoeGraph = true) by (vm_compute; reflexivity).
  split; [exact H1|]. split; [exact H2|].
  exact (@bfsSearch_reachable_products shoeGraph "A" H1 H2).
Defined.

Lemma scoreCandidate_range_witness :
  nodes_get shoeGraph "A"
  = Ok (product_attrs "X" "shoes" 50%float false ["running"]) /\
  nodes_get shoeGraph "B"
  = Ok (product_attrs "X" "shoes" 40%float true ["running"; "light"]) /\
  has_node "shoes" shoeGraph = true /\
  exists z,
    scoreCandidate shoeGraph "A" "B" = Ok z /\ (0 <= z <= 5)%Z /\
    ("shoes" = "shoes" -> (3 <= z)%Z) /\ ("shoes" <> "shoes" -> (z <= 3)%Z) /\
    (z = 5%Z <-> "shoes" = "shoes" /\ "X" = "X" /\
                 PrimFloat.ltb 40%float 50%float = true).
Proof.
  assert (H1 : nodes_get shoeGraph "A"
               = Ok (product_attrs "X" "shoes" 50%float false ["running"]))
    by (vm_compute; reflexivity).
  assert (H2 : nodes_get shoeGraph "B"
               = Ok (product_attrs "X" "shoes" 40%float true ["running"; "light"]))
    by (vm_compute; reflexivity).
  assert (H3 : has_node "shoes" shoeGraph = true) by (vm_compute; reflexivity).
  split; [exact H1|]. split; [exact H2|]. split; [exact H3|].
  exact (@scoreCandidate_range shoeGraph "A" "B" "X" "shoes" "X" "shoes"
           50%float 40%float false true ["running"] ["running"; "light"]
           H1 H2 H3).
Defined.

Lemma findAlternatives_sound_witness :
  graph_ok shoeGraph = true /\
  nodes_get shoeGraph "A"
  = Ok (product_attrs "X" "shoes" 50%float false ["running"]) /\
  exists items,
    findAlternatives shoeGraph "A" 100%float ["running"] None = Some (Ok items) /\
    length items <= 3 /\
    NoDup (map item_id items) /\
    Forall (fun it => exists pid score rules b c pr tg,
              it = Tuple3 pid score rules /\
              pid <> "A" /\
              nodes_get shoeGraph pid = Ok (product_attrs b c pr true tg) /\
              PrimFloat.ltb 100%float pr = false /\
              checkConstraints shoeGraph pid 100%float ["running"] None = Ok true /\
              scoreCandidate shoeGraph "A" pid = Ok score /\
              (0 <= score <= 5)%Z /\
              explainRules shoeGraph "A" pid ["running"] = Ok rules) items.
Proof.
  assert (H1 : graph_ok shoeGraph = true) by (vm_compute; reflexivity).
  assert (H2 : nodes_get shoeGraph "A"
               = Ok (product_attrs "X" "shoes" 50%float false ["running"]))
    by (vm_compute; reflexivity).
  split; [exact H1|]. split; [exact H2|].
  exact (@findAlternatives_sound shoeGraph "A" "X" "shoes" 50%float ["running"]
           100%float ["running"] None H1 H2).
Defined.

Lemma findAlternatives_best_witness :
  graph_ok shoeGraph = true /\
  nodes_get shoeGraph "A"
  = Ok (product_attrs "X" "shoes" 50%float false ["running"]) /\
  exists cands valid top,
    bfsSearch shoeGraph "A" = Some (Ok cands) /\
    collect_valid shoeGraph "A" 100%float ["running"] None cands [] = Ok valid /\
    map entry_id valid = filter (passes shoeGraph 100%float ["running"] None) cands /\
    findAlternatives shoeGraph "A" 100%float ["running"] None
    = Some (Ok (map to_item top)) /\
    (forall y, In y top -> In y valid) /\
    (forall x y, In x valid -> ~ In x top -> In y top ->
                 (entry_score x <= entry_score y)%Z) /\
    (length valid <= 3 -> Permutation top valid).
Proof.
  assert (H1 : graph_ok shoeGraph = true) by (vm_compute; reflexivity).
  assert (H2 : nodes_get shoeGraph "A"
               = Ok (product_attrs "X" "shoes" 50%float false ["running"]))
    by (vm_compute; reflexivity).
  split; [exact H1|]. split; [exact H2|].
  exact (@findAlternatives_best shoeGraph "A" "X" "shoes" 50%float ["running"]
           100%float ["running"] None H1 H2).
Defined.

Lemma createGraph_last_record_wins_witness :
  Forall (fun x => r_id x <> "P")
         [mkRow "Q" "boots" "X" "50" "false" "leather"] /\
  createGraph float_of_digits twinRows = Ok twinGraph /\
  exists price,
    float_of_digits "60" = Some price /\
    nodes_get twinGraph "P"
    = Ok (row_attrs (mkRow "P" "sandals" "Y" "60" "true" "leather") price).
Proof.
  assert (H1 : Forall (fun x => r_id x <> "P")
                      [mkRow "Q" "boots" "X" "50" "false" "leather"])
    by (repeat constructor; discriminate).
  assert (H2 : createGraph float_of_digits twinRows = Ok twinGraph)
    by (vm_compute; reflexivity).
  split; [exact H1|]. split; [exact H2|].
  exact (@createGraph_last_record_wins float_of_digits
           [mkRow "P" "boots" "Y" "60" "true" "leather"]
           [mkRow "Q" "boots" "X" "50" "false" "leather"]
           (mkRow "P" "sandals" "Y" "60" "true" "leather") twinGraph H1 H2).
Defined.

Lemma createGraph_record_edges_witness :
  createGraph float_of_digits shoeRows = Ok shoeGraph /\
  In rowB shoeRows /\
  ("light" = r_category rowB \/ In "light" (row_tags rowB)) /\
  product_at shoeGraph (r_id rowB) = true /\
  has_node "light" shoeGraph = true /\
  adjacent shoeGraph (r_id rowB) "light" /\
  adjacent shoeGraph "light" (r_id rowB).
Proof.
  assert (H1 : createGraph float_of_digits shoeRows = Ok shoeGraph)
    by (vm_compute; reflexivity).
  assert (H2 : In rowB shoeRows) by (right; left; reflexivity).
  assert (H3 : "light" = r_category rowB \/ In "light" (row_tags rowB))
    by (right; right; left; reflexivity).
  split; [exact H1|]. split; [exact H2|]. split; [exact H3|].
  exact (@createGraph_record_edges float_of_digits shoeRows shoeGraph rowB
           "light" H1 H2 H3).
Defined.

Lemma bfsSearch_finds_related_witness :
  createGraph float_of_digits shoeRows = Ok shoeGraph /\
  In rowA shoeRows /\ In rowC shoeRows /\
  r_id rowC <> r_id rowA /\
  ("running" = r_category rowA \/ In "running" (row_tags rowA)) /\
  ("running" = r_category rowC \/ In "running" (row_tags rowC)) /\
  exists l, bfsSearch shoeGraph (r_id rowA) = Some (Ok l) /\ In (r_id rowC) l.
Proof.
  assert (H1 : createGraph float_of_digits shoeRows = Ok shoeGraph)
    by (vm_compute; reflexivity).
  assert (H2 : In rowA shoeRows) by (left; reflexivity).
  assert (H3 : In rowC shoeRows) by (right; right; left; reflexivity).
  assert (H4 : r_id rowC <> r_id rowA) by discriminate.
  assert (H5 : "running" = r_category rowA \/ In "running" (row_tags rowA))
    by (right; left; reflexivity).
  assert (H6 : "running" = r_category rowC \/ In "running" (row_tags rowC))
    by (right; left; reflexivity).
  split; [exact H1|]. split; [exact H2|]. split; [exact H3|].
  split; [exact H4|]. split; [exact H5|]. split; [exact H6|].
  exact (@bfsSearch_finds_related float_of_digits shoeRows shoeGraph rowA rowC
           "running" H1 H2 H3 H4 H5 H6).
Defined.

Lemma createGraph_well_formed_witness :
  createGraph float_of_digits shoeRows = Ok shoeGraph /\
  Dict.get "B" shoeGraph
  = Some (mkNode (product_attrs "X" "shoes" 40%float true ["running"; "light"])
            [("shoes", "IS A"); ("running", "HAS TAG"); ("light", "HAS TAG")]) /\
  (forall m, In m ["shoes"; "running"; "light"] -> has_node m shoeGraph = true) /\
  kind_ok (product_attrs "X" "shoes" 40%float true ["running"; "light"]) /\
  (forall b c p s t,
     product_attrs "X" "shoes" 40%float true ["running"; "light"]
     = product_attrs b c p s t -> has_node c shoeGraph = true).
Proof.
  assert (H1 : createGraph float_of_digits shoeRows = Ok shoeGraph)
    by (vm_compute; reflexivity).
  assert (H2 : Dict.get "B" shoeGraph
    = Some (mkNode (product_attrs "X" "shoes" 40%float true ["running"; "light"])
              [("shoes", "IS A"); ("running", "HAS TAG"); ("light", "HAS TAG")]))
    by (vm_compute; reflexivity).
  split; [exact H1|]. split; [exact H2|].
  exact (@createGraph_well_formed float_of_digits shoeRows shoeGraph "B" _ H1 H2).
Defined.

Lemma createGraph_node_lists_witness :
  createGraph float_of_digits shoeRows = Ok shoeGraph /\
  exists ps cs ts,
    nodes_of_type "product" shoeGraph = Ok ps /\
    nodes_of_type "category" shoeGraph = Ok cs /\
    nodes_of_type "tag" shoeGraph = Ok ts /\
    Permutation (ps ++ cs ++ ts) (Dict.keys shoeGraph) /\
    NoDup (Dict.keys shoeGraph) /\
    (forall n, In n ps <-> product_at shoeGraph n = true).
Proof.
  assert (H1 : createGraph float_of_digits shoeRows = Ok shoeGraph)
    by (vm_compute; reflexivity).
  split; [exact H1|].
  exact (@createGraph_node_lists float_of_digits shoeRows shoeGraph H1).
Defined.

Lemma findAlternatives_on_built_graph_witness :
  createGraph float_of_digits shoeRows = Ok shoeGraph /\
  has_node "shoes" shoeGraph = true /\
  product_at shoeGraph "shoes" = false /\
  findAlternatives shoeGraph "shoes" 100%float ["running"] None
  = Some (Raise (KeyError "stock")) /\
  has_node "A" shoeGraph = true /\
  product_at shoeGraph "A" = true /\
  exists items,
    findAlternatives shoeGraph "A" 100%float ["running"] None
    = Some (Ok items) /\ length items <= 3.
Proof.
  assert (H1 : createGraph float_of_digits shoeRows = Ok shoeGraph)
    by (vm_compute; reflexivity).
  assert (H2 : has_node "shoes" shoeGraph = true) by (vm_compute; reflexivity).
  assert (H3 : product_at shoeGraph "shoes" = false) by (vm_compute; reflexivity).
  assert (H4 : has_node "A" shoeGraph = true) by (vm_compute; reflexivity).
  assert (H5 : product_at shoeGraph "A" = true) by (vm_compute; reflexivity).
  split; [exact H1|]. split; [exact H2|]. split; [exact H3|].
  split.
  - exact (proj2 (@findAlternatives_on_built_graph float_of_digits shoeRows
                    shoeGraph "shoes" 100%float ["running"] None H1 H2) H3).
  - split; [exact H4|]. split; [exact H5|].
    exact (proj1 (@findAlternatives_on_built_graph float_of_digits shoeRows
                    shoeGraph "A" 100%float ["running"] None H1 H4) H5).
Defined.

Lemma parse_required_tags_tokens_witness :
  ascii_text " a ; b;; c d " = true /\
  In "c d" (parse_required_tags " a ; b;; c d ") /\
  "c d" <> "" /\ strip "c d" = "c d" /\ has_char ";" "c d" = false /\
  exists tok, In tok (split ";" " a ; b;; c d ") /\ "c d" = strip tok.
Proof.
  assert (H : In "c d" (parse_required_tags " a ; b;; c d "))
    by (vm_compute; right; right; left; reflexivity).
  split; [vm_compute; reflexivity|]. split; [exact H|].
  exact (@parse_required_tags_tokens " a ; b;; c d " "c d" eq_refl H).
Defined.

Lemma parse_required_tags_agrees_witness :
  ascii_text (r_tags rowB) = true /\
  Forall clean_token (row_tags rowB) /\
  parse_required_tags (r_tags rowB) = row_tags rowB /\
  forallb (fun t => str_in t (row_tags rowB)) (parse_required_tags (r_tags rowB))
  = true.
Proof.
  assert (H : Forall clean_token (row_tags rowB)).
  { repeat constructor; try (vm_compute; reflexivity); discriminate. }
  split; [vm_compute; reflexivity|]. split; [exact H|].
  exact (@parse_required_tags_agrees rowB eq_refl H).
Defined.

Lemma createGraph_undirected_witness :
  createGraph float_of_digits shoeRows = Ok shoeGraph /\
  edge shoeGraph "B" "light" "HAS TAG" /\
  edge shoeGraph "light" "B" "HAS TAG".
Proof.
  assert (H1 : createGraph float_of_digits shoeRows = Ok shoeGraph)
    by (vm_compute; reflexivity).
  assert (H2 : edge shoeGraph "B" "light" "HAS TAG").
  { eexists. split; vm_compute; reflexivity. }
  split; [exact H1|]. split; [exact H2|].
  exact (@createGraph_undirected float_of_digits shoeRows shoeGraph
           "B" "light" "HAS TAG" H1 H2).
Defined.

Lemma bfsSearch_symmetric_witness :
  createGraph float_of_digits shoeRows = Ok shoeGraph /\
  product_at shoeGraph "A" = true /\ product_at shoeGraph "B" = true /\
  "A" <> "B" /\
  exists la lb,
    bfsSearch shoeGraph "A" = Some (Ok la) /\
    bfsSearch shoeGraph "B" = Some (Ok lb) /\
    (In "B" la <-> In "A" lb).
Proof.
  assert (H1 : createGraph float_of_digits shoeRows = Ok shoeGraph)
    by (vm_compute; reflexivity).
  assert (H2 : product_at shoeGraph "A" = true) by (vm_compute; reflexivity).
  assert (H3 : product_at shoeGraph "B" = true) by (vm_compute; reflexivity).
  assert (H4 : "A" <> "B") by discriminate.
  split; [exact H1|]. split; [exact H2|]. split; [exact H3|]. split; [exact H4|].
  exact (@bfsSearch_symmetric float_of_digits shoeRows shoeGraph "A" "B"
           H1 H2 H3 H4).
Defined.

Lemma queries_on_bare_nodes_witness :
  createGraph float_of_digits shoeRows = Ok shoeGraph /\
  has_node "shoes" shoeGraph = true /\
  product_at shoeGraph "shoes" = false /\
  product_at shoeGraph "B" = true /\
  has_node "Z" shoeGraph = false /\
  checkConstraints shoeGraph "shoes" 100%float ["running"] None
  = Raise (KeyError "stock") /\
  scoreCandidate shoeGraph "shoes" "B" = Raise (KeyError "category") /\
  scoreCandidate shoeGraph "B" "shoes" = Raise (KeyError "category") /\
  explainRules shoeGraph "shoes" "B" ["running"] = Raise (KeyError "category") /\
  explainRules shoeGraph "B" "shoes" ["running"] = Raise (KeyError "category") /\
  checkConstraints shoeGraph "Z" 100%float ["running"] None
  = Raise (KeyError "Z") /\
  scoreCandidate shoeGraph "Z" "B" = Raise (KeyError "Z") /\
  scoreCandidate shoeGraph "B" "Z" = Raise (KeyError "Z").
Proof.
  assert (H1 : createGraph float_of_digits shoeRows = Ok shoeGraph)
    by (vm_compute; reflexivity).
  assert (H2 : has_node "shoes" shoeGraph = true) by (vm_compute; reflexivity).
  assert (H3 : product_at shoeGraph "shoes" = false) by (vm_compute; reflexivity).
  assert (H4 : product_at shoeGraph "B" = true) by (vm_compute; reflexivity).
  assert (H5 : has_node "Z" shoeGraph = false) by (vm_compute; reflexivity).
  split; [exact H1|]. split; [exact H2|]. split; [exact H3|].
  split; [exact H4|]. split; [exact H5|].
  exact (@queries_on_bare_nodes float_of_digits shoeRows shoeGraph
           "shoes" "B" "Z" 100%float ["running"] None H1 H2 H3 H4 H5).
Defined.

Lemma createGraph_products_are_ids_witness :
  createGraph float_of_digits clashRows = Ok clashGraph /\
  (product_at clashGraph "boots" = true <-> In "boots" (map r_id clashRows)).
Proof.
  assert (H1 : createGraph float_of_digits clashRows = Ok clashGraph)
    by (vm_compute; reflexivity).
  split; [exact H1|].
  exact (@createGraph_products_are_ids float_of_digits clashRows clashGraph
           "boots" H1).
Defined.
